(** * Annotation fusion and dataset split of [convert_annotations.py]

    A shallow embedding of [final/training/convert_annotations.py]:
    the IoU helper, the simplified Weighted Boxes Fusion, and the
    conversion pipeline [convert_dataset] (grouping, fusion, YOLO lines,
    train/val split, materialisation, manifest, per-class statistics).

    Number model.  Python floats are modelled by exact rationals [Q];
    value equality of floats is [Qeq] ([==]), and rounding, overflow and
    non-finite values are outside the model.  Where a property speaks
    about a division by zero (the weights of a cluster, the IoU) the
    division is made partial: a result numpy would produce as nan or inf
    is [None].  Elsewhere division is the one of [Q].  Python [int]s are
    [Z].

    Environment.  The generator behind [random], the order in which the
    interpreter iterates over a set of strings, and path resolution are
    parameters of the pipeline.  The file system is a finite map from
    paths to contents; directories are not modelled. *)

From Stdlib Require Import QArith Qround Qabs Qminmax Lqa Lia ZArith List Bool Sorted.
From Stdlib Require Import Ascii String Decimal DecimalString DecimalZ.
From stdpp Require Import base list gmap strings sets.
From Equations Require Import Equations.

Local Open Scope Q_scope.

(** ** Python builtins on numbers *)

Definition Qlt_bool (a b : Q) : bool := negb (Qle_bool b a).

(** [max(a, b)]: the first argument is kept unless the second is larger. *)
Definition py_max (a b : Q) : Q := if Qlt_bool a b then b else a.

(** [min(a, b)]: the first argument is kept unless the second is smaller. *)
Definition py_min (a b : Q) : Q := if Qlt_bool b a then b else a.

(** ** Boxes and IoU *)

(** A box is the 4-vector [(x1, y1, x2, y2)]. *)
Record Box : Type := mkBox { bx1 : Q; by1 : Q; bx2 : Q; by2 : Q }.

Definition _iou (box1 box2 : Box) : Q :=
  let x1 := py_max (bx1 box1) (bx1 box2) in
  let y1 := py_max (by1 box1) (by1 box2) in
  let x2 := py_min (bx2 box1) (bx2 box2) in
  let y2 := py_min (by2 box1) (by2 box2) in
  let inter := py_max 0 (x2 - x1) * py_max 0 (y2 - y1) in
  let area1 := (bx2 box1 - bx1 box1) * (by2 box1 - by1 box1) in
  let area2 := (bx2 box2 - bx1 box2) * (by2 box2 - by1 box2) in
  let union := area1 + area2 - inter in
  if Qlt_bool 0 union then inter / union else 0.

(** The intersection area, as [_iou] computes it. *)
Definition inter_area (box1 box2 : Box) : Q :=
  py_max 0 (py_min (bx2 box1) (bx2 box2) - py_max (bx1 box1) (bx1 box2))
  * py_max 0 (py_min (by2 box1) (by2 box2) - py_max (by1 box1) (by1 box2)).

Definition box_area (b : Box) : Q := (bx2 b - bx1 b) * (by2 b - by1 b).

(** A valid box has positive width and height. *)
Definition valid_box (b : Box) : Prop := bx1 b < bx2 b /\ by1 b < by2 b.

(** A degenerate box has no width or no height. *)
Definition degenerate (b : Box) : Prop := bx2 b <= bx1 b \/ by2 b <= by1 b.

(** [_iou] with the division made partial: [None] when the divisor is
    zero (where Python raises or numpy yields a non-finite value). *)
Definition Qdiv_checked (a b : Q) : option Q :=
  if Qeq_bool b 0 then None else Some (a / b).

Definition _iou_partial (box1 box2 : Box) : option Q :=
  let inter := inter_area box1 box2 in
  let union := box_area box1 + box_area box2 - inter in
  if Qlt_bool 0 union then Qdiv_checked inter union else Some 0.

(** ** numpy helpers *)

(** [np.sum] of a vector. *)
Definition Qsum (l : list Q) : Q := fold_right Qplus 0 l.

(** [np.mean] of a vector. *)
Definition np_mean (l : list Q) : Q := Qsum l / inject_Z (Z.of_nat (length l)).

(** [np.unique] on integer labels: the sorted list of distinct values. *)
Fixpoint insert_unique (x : Z) (l : list Z) : list Z :=
  match l with
  | [] => [x]
  | y :: r =>
      if (x <? y)%Z then x :: l
      else if (x =? y)%Z then l
      else y :: insert_unique x r
  end.

Definition np_unique (l : list Z) : list Z := fold_right insert_unique [] l.

(** [weights / weights.sum()]: no finite weights when the sum is zero. *)
Definition normalize_weights (cluster_scores : list Q) : option (list Q) :=
  let total := Qsum cluster_scores in
  if Qeq_bool total 0 then None
  else Some (map (fun s => s / total) cluster_scores).

(** One coordinate of [np.average(cluster_boxes, axis=0, weights=weights)]
    before the division by the sum of the weights. *)
Definition wsum (f : Box -> Q) (cluster_boxes : list Box) (weights : list Q) : Q :=
  Qsum (zip_with (fun b w => f b * w) cluster_boxes weights).

(** [np.average(cluster_boxes, axis=0, weights=weights)]: the weighted
    sums divided by the sum of the weights; numpy refuses weights that
    sum to zero. *)
Definition np_average (cluster_boxes : list Box) (weights : list Q) : option Box :=
  let scl := Qsum weights in
  if Qeq_bool scl 0 then None
  else Some (mkBox (wsum bx1 cluster_boxes weights / scl)
                   (wsum by1 cluster_boxes weights / scl)
                   (wsum bx2 cluster_boxes weights / scl)
                   (wsum by2 cluster_boxes weights / scl)).

(** ** Weighted Boxes Fusion *)

(** The parallel arrays [all_boxes], [all_scores], [all_labels] (and the
    three returned arrays) are kept as one list of triples; the masked
    arrays [label_boxes], [label_scores] as one list of pairs. *)
Definition zip3 {A B C} (xs : list A) (ys : list B) (zs : list C)
  : list (A * B * C) := zip (zip xs ys) zs.

(** A fused entry: merged box ([None] when numpy yields no finite box),
    merged score, label. *)
Definition Fused : Type := option Box * Q * Z.

Definition dflt_item : Box * Q := (mkBox 0 0 0 0, 0).

(** Flatten all boxes (lines 38-46). *)
Definition pool (boxes_list : list (list Box)) (scores_list : list (list Q))
    (labels_list : list (list Z)) (skip_box_thr : Q) : list (Box * Q * Z) :=
  concat (map (fun '(boxes, scores, labels) =>
                 List.filter (fun '(b, s, l) => Qlt_bool skip_box_thr s)
                             (zip3 boxes scores labels))
              (zip3 boxes_list scores_list labels_list)).

(** [all_boxes[mask]], [all_scores[mask]] for [mask = all_labels == label]. *)
Definition select_label (label : Z) (all : list (Box * Q * Z)) : list (Box * Q) :=
  map fst (List.filter (fun '(b, s, l) => (l =? label)%Z) all).

(** Body of the inner loop [for j in range(i + 1, len(label_boxes))]. *)
Definition scan_candidate (items : list (Box * Q)) (iou_thr : Q) (i : nat)
    (st : list (Box * Q) * list bool) (j : nat) : list (Box * Q) * list bool :=
  let '(cluster, used) := st in
  if nth j used false then st
  else if Qlt_bool iou_thr (_iou (fst (nth i items dflt_item))
                                 (fst (nth j items dflt_item)))
       then (cluster ++ [nth j items dflt_item], <[j:=true]> used)
       else st.

(** Lines 71-81: the cluster seeded at [i] and the updated [used] flags. *)
Definition form_cluster (items : list (Box * Q)) (iou_thr : Q) (i : nat)
    (used : list bool) : list (Box * Q) * list bool :=
  fold_left (scan_candidate items iou_thr i)
            (seq (S i) (length items - S i))
            ([nth i items dflt_item], <[i:=true]> used).

(** Lines 83-91: weighted average of a cluster. *)
Definition fuse_cluster (cluster : list (Box * Q)) (label : Z) : Fused :=
  let cluster_boxes := map fst cluster in
  let cluster_scores := map snd cluster in
  let merged_box :=
    match normalize_weights cluster_scores with
    | Some weights => np_average cluster_boxes weights
    | None => None
    end in
  let merged_score := np_mean cluster_scores in
  (merged_box, merged_score, label).

(** Body of the outer loop [for i in range(len(label_boxes))]. *)
Definition cluster_step (items : list (Box * Q)) (iou_thr : Q) (label : Z)
    (st : list bool * list Fused) (i : nat) : list bool * list Fused :=
  let '(used, final) := st in
  if nth i used false then st
  else
    let '(cluster, used') := form_cluster items iou_thr i used in
    (used', final ++ [fuse_cluster cluster label]).

(** The loop over one label (lines 62-91). *)
Definition fuse_label (all : list (Box * Q * Z)) (iou_thr : Q) (label : Z)
  : list Fused :=
  let items := select_label label all in
  snd (fold_left (cluster_step items iou_thr label)
                 (seq 0 (length items))
                 (replicate (length items) false, [])).

Definition weighted_boxes_fusion (boxes_list : list (list Box))
    (scores_list : list (list Q)) (labels_list : list (list Z))
    (iou_thr skip_box_thr : Q) : list Fused :=
  if Nat.eqb (length boxes_list) 0 then []
  else
    let all := pool boxes_list scores_list labels_list skip_box_thr in
    if Nat.eqb (length all) 0 then []
    else
      let unique_labels := np_unique (map snd all) in
      concat (map (fuse_label all iou_thr) unique_labels).

(** The clusters of one label before averaging, in the order in which
    the outer loop closes them. *)
Definition trace_step (items : list (Box * Q)) (iou_thr : Q)
    (st : list bool * list (list (Box * Q))) (i : nat)
  : list bool * list (list (Box * Q)) :=
  let '(used, cls) := st in
  if nth i used false then st
  else
    let '(cluster, used') := form_cluster items iou_thr i used in
    (used', cls ++ [cluster]).

Definition clusters_of (items : list (Box * Q)) (iou_thr : Q)
  : list (list (Box * Q)) :=
  snd (fold_left (trace_step items iou_thr)
                 (seq 0 (length items))
                 (replicate (length items) false, [])).

(** The test of line 78 on two pooled entries. *)
Definition joins (iou_thr : Q) (seed cand : Box * Q) : bool :=
  Qlt_bool iou_thr (_iou (fst seed) (fst cand)).

(** Seed-anchored clustering as the specification words it (4.2, step 2):
    the first unclustered box is the seed, each remaining unclustered box
    joins iff its IoU with the seed exceeds the threshold, and the scan
    repeats on what is left. *)
Equations? seed_anchored (iou_thr : Q) (l : list (Box * Q))
  : list (list (Box * Q)) by wf (length l) lt :=
  seed_anchored iou_thr [] := [];
  seed_anchored iou_thr (seed :: rest) :=
    (seed :: List.filter (joins iou_thr seed) rest)
    :: seed_anchored iou_thr
         (List.filter (fun c => negb (joins iou_thr seed c)) rest).
Proof.
  clear seed_anchored.
  induction rest as [|c rest IH]; simpl; [lia|].
  destruct (negb (joins iou_thr (b, q) c)); simpl; lia.
Qed.

(** ** Text: Python formatting and parsing *)

Definition nl : string := String (ascii_of_nat 10) EmptyString.

(** [str(int)]. *)
Definition format_int (z : Z) : string := NilEmpty.string_of_int (Z.to_int z).

(** Round a non-negative rational to the nearest integer, ties to even. *)
Definition round_half_even (q : Q) : Z :=
  let n := Qnum q in
  let d := Z.pos (Qden q) in
  let k := (n / d)%Z in
  let r := (n mod d)%Z in
  match (2 * r ?= d)%Z with
  | Lt => k
  | Gt => (k + 1)%Z
  | Eq => if Z.even k then k else (k + 1)%Z
  end.

Definition pad6 (s : string) : string :=
  String.concat "" (replicate (6 - String.length s) "0"%string) +:+ s.

(** [f"{x:.6f}"]: fixed notation with six decimals. *)
Definition format_6f (x : Q) : string :=
  let k := round_half_even (Qabs x * 1000000) in
  (if Qlt_bool x 0 then "-" else "")
  +:+ format_int (k / 1000000) +:+ "." +:+ pad6 (format_int (k mod 1000000)).

(** Whitespace of [str.split()] in the ASCII range. *)
Definition is_space (c : ascii) : bool :=
  let n := nat_of_ascii c in
  Nat.eqb n 32 || (Nat.leb 9 n && Nat.leb n 13) || (Nat.leb 28 n && Nat.leb n 31).

Fixpoint skip_spaces (s : string) : string :=
  match s with
  | String c r => if is_space c then skip_spaces r else s
  | EmptyString => EmptyString
  end.

Fixpoint take_token (s : string) : string :=
  match s with
  | String c r => if is_space c then EmptyString else String c (take_token r)
  | EmptyString => EmptyString
  end.

(** [line.split()[0]]: [None] when the line has no token (IndexError). *)
Definition first_token (line : string) : option string :=
  match skip_spaces line with
  | EmptyString => None
  | s => Some (take_token s)
  end.

(** [int(token)] on a decimal literal: [None] when it is none (ValueError). *)
Definition int_of_token (tok : string) : option Z :=
  match tok with
  | EmptyString => None
  | _ => Z.of_int <$> NilEmpty.int_of_string tok
  end.

(** [int(line.split()[0])]. *)
Definition line_class (line : string) : option Z :=
  first_token line ≫= int_of_token.

(** ** Python containers *)

(** A [dict] whose values are lists, in insertion order:
    [d[k].append(v)] on a [defaultdict(list)]. *)
Fixpoint alist_append {V : Type} (k : string) (v : V)
    (d : list (string * list V)) : list (string * list V) :=
  match d with
  | [] => [(k, [v])]
  | (k', vs) :: d' =>
      if bool_decide (k = k') then (k', vs ++ [v]) :: d'
      else (k', vs) :: alist_append k v d'
  end.

Definition group_by {V : Type} (key : V -> string) (rows : list V)
  : list (string * list V) :=
  fold_left (fun d r => alist_append (key r) r d) rows [].

(** [Series.unique()]: distinct values, in order of first appearance. *)
Definition pd_unique (l : list string) : list string :=
  fold_left (fun acc x => if bool_decide (x ∈ acc) then acc else acc ++ [x]) l [].

(** [int(x)] on a float: truncation toward zero. *)
Definition py_int (x : Q) : Z := Z.quot (Qnum x) (Z.pos (Qden x)).

(** The slices [l[:k]] and [l[k:]] for any integer [k]: a negative [k]
    counts from the end, and bounds are clipped. *)
Definition slice_bound {A : Type} (l : list A) (k : Z) : nat :=
  if (k <? 0)%Z then Z.to_nat (Z.of_nat (length l) + k) else Z.to_nat k.

Definition slice_to {A : Type} (l : list A) (k : Z) : list A :=
  take (slice_bound l k) l.

Definition slice_from {A : Type} (l : list A) (k : Z) : list A :=
  drop (slice_bound l k) l.

(** [x[i], x[j] = x[j], x[i]].  Both indices are in range where
    [random.shuffle] uses it ([j <= i < len(x)]); out of range, where
    Python raises, the list is left as it is. *)
Definition swap {A : Type} (i j : nat) (x : list A) : list A :=
  match x !! i, x !! j with
  | Some xi, Some xj => <[j:=xi]> (<[i:=xj]> x)
  | _, _ => x
  end.

(** ** Input rows *)

(** One row of the CSV; an empty cell of a coordinate column is [None]. *)
Record Row : Type := mkRow {
  image_id : string;
  class_id : Z;
  rad_id : string;
  x_min : option Q;
  y_min : option Q;
  x_max : option Q;
  y_max : option Q;
  raw_width : Q;
  raw_height : Q;
  scale_x : Q;
  scale_y : Q
}.

Definition CLASS_NAMES : list string :=
  ["Aortic enlargement"; "Atelectasis"; "Calcification"; "Cardiomegaly";
   "Consolidation"; "ILD"; "Infiltration"; "Lung Opacity"; "Nodule/Mass";
   "Other lesion"; "Pleural effusion"; "Pleural thickening"; "Pneumothorax";
   "Pulmonary fibrosis"]%string.

Definition NUM_CLASSES : nat := length CLASS_NAMES.

(** [df[df['class_id'] != 14]] and [df[df['class_id'] == 14]]. *)
Definition is_finding_row (r : Row) : bool := negb (class_id r =? 14)%Z.

(** [dropna(subset=['x_min', 'y_min', 'x_max', 'y_max'])]. *)
Definition has_bbox (r : Row) : bool :=
  match x_min r, y_min r, x_max r, y_max r with
  | Some _, Some _, Some _, Some _ => true
  | _, _, _, _ => false
  end.

(** A coordinate cell of a row that passed [dropna]. *)
Definition cell (c : option Q) : Q := default 0 c.

(** ** Per-image aggregation (step 4) *)

(** [max(0, min(1, x))]. *)
Definition clamp01 (x : Q) : Q := py_max 0 (py_min 1 x).

(** Lines 231-248 for one row: the normalised, clamped box with its
    score and label, or nothing for a box that is empty after clamping. *)
Definition rad_entry (disp_w disp_h : Q) (r : Row) : option (Box * Q * Z) :=
  let x1 := clamp01 (cell (x_min r) / disp_w) in
  let y1 := clamp01 (cell (y_min r) / disp_h) in
  let x2 := clamp01 (cell (x_max r) / disp_w) in
  let y2 := clamp01 (cell (y_max r) / disp_h) in
  if Qle_bool x2 x1 || Qle_bool y2 y1 then None
  else Some (mkBox x1 y1 x2 y2, 1, class_id r).

(** The entries of one radiologist. *)
Definition rad_entries (disp_w disp_h : Q) (rad_rows : list Row)
  : list (Box * Q * Z) :=
  omap (rad_entry disp_w disp_h) rad_rows.

(** The three lists handed to the fusion: one array per radiologist with
    at least one box (lines 222-253). *)
Definition fusion_input (disp_w disp_h : Q) (rows : list Row)
  : list (list Box) * list (list Q) * list (list Z) :=
  let rad_groups := group_by rad_id rows in
  let per_rad :=
    List.filter (fun es => negb (Nat.eqb (length es) 0))
                (map (fun '(_, rad_rows) => rad_entries disp_w disp_h rad_rows)
                     rad_groups) in
  (map (map (fun e => fst (fst e))) per_rad,
   map (map (fun e => snd (fst e))) per_rad,
   map (map snd) per_rad).

(** The four clamped values of a YOLO line.  A merged box without finite
    coordinates makes every comparison of the clamping false, which
    leaves the bound [1]. *)
Definition yolo_values (mb : option Box) : Q * Q * Q * Q :=
  match mb with
  | Some box =>
      (clamp01 ((bx1 box + bx2 box) / 2), clamp01 ((by1 box + by2 box) / 2),
       clamp01 (bx2 box - bx1 box), clamp01 (by2 box - by1 box))
  | None => (1, 1, 1, 1)
  end.

(** Line 277. *)
Definition yolo_line (f : Fused) : string :=
  let '(mb, _, label) := f in
  let '(x_center, y_center, width, height) := yolo_values mb in
  format_int label +:+ " " +:+ format_6f x_center +:+ " " +:+ format_6f y_center
  +:+ " " +:+ format_6f width +:+ " " +:+ format_6f height.

(** The fused entries of one image (lines 214-261); nothing when no
    radiologist contributes a box. *)
Definition image_fusion (iou_thr : Q) (disp : Q * Q) (rows : list Row)
  : option (list Fused) :=
  let '(boxes_list, scores_list, labels_list) :=
    fusion_input (fst disp) (snd disp) rows in
  if Nat.eqb (length boxes_list) 0 then None
  else Some (weighted_boxes_fusion boxes_list scores_list labels_list iou_thr 0).

(** [image_display_sizes]: the size computed from the last row of an image. *)
Definition display_sizes (finding_df : list Row) : gmap string (Q * Q) :=
  fold_left (fun m r => <[image_id r := (raw_width r * scale_x r,
                                         raw_height r * scale_y r)]> m)
            finding_df ∅.

(** The fused entries per image, for the images that obtain at least one
    (the in-memory state behind [yolo_labels]). *)
Definition fused_labels (iou_thr : Q) (finding_df : list Row)
  : list (string * list Fused) :=
  let image_annotations := group_by image_id finding_df in
  let image_display_sizes := display_sizes finding_df in
  omap (fun '(img_id, rows) =>
          match image_fusion iou_thr
                  (default (0, 0) (image_display_sizes !! img_id)) rows with
          | Some (f :: fs) => Some (img_id, f :: fs)
          | _ => None
          end)
       image_annotations.

(** [yolo_labels]: image id to its lines, in insertion order. *)
Definition yolo_labels_of (iou_thr : Q) (finding_df : list Row)
  : list (string * list string) :=
  map (fun '(img_id, fs) => (img_id, map yolo_line fs))
      (fused_labels iou_thr finding_df).

(** ** The conversion pipeline *)

(** [Path(a) / b] as text. *)
Definition path_join (a b : string) : string := a +:+ "/" +:+ b.

(** [repr] of a list of plain strings. *)
Definition py_repr_list (names : list string) : string :=
  "[" +:+ String.concat ", " (map (fun s => "'" +:+ s +:+ "'") names) +:+ "]".

Definition alist_lookup {V : Type} (k : string) (d : list (string * V))
  : option V :=
  snd <$> List.find (fun kv => bool_decide (fst kv = k)) d.

(** The per-class statistics loop (lines 377-381): how many in-memory
    lines parse to class [cls]. *)
Definition class_counts_of (yolo_labels : list (string * list string))
    (cls : Z) : nat :=
  length (List.filter (fun line => bool_decide (line_class line = Some cls))
                      (concat (map snd yolo_labels))).

(** What a run computes and leaves behind: the locals of
    [convert_dataset] the properties speak about, the file system after
    the run, and the printed per-class counts. *)
Record Run : Type := mkRun {
  pure_no_finding : gset string;
  yolo_labels : list (string * list string);
  (* after [random.shuffle] *)
  finding_image_list : list string;
  val_count : Z;
  (* [val_images] and [train_images] as lines 293-294 set them *)
  val_findings : gset string;
  train_findings : gset string;
  (* after [random.shuffle] *)
  no_finding_list : list string;
  selected_no_finding : list string;
  nf_val : Z;
  no_finding_val : gset string;
  no_finding_train : gset string;
  (* [train_images] and [val_images] after the updates of lines 308-309 *)
  train_images : gset string;
  val_images : gset string;
  files : gmap string string;
  missing : nat;
  copied : nat;
  (* the counts printed for the classes [0 .. NUM_CLASSES - 1] *)
  class_stats : list nat
}.

Section Pipeline.
Context {Rng : Type}.
(** [random.seed(seed)]: the generator state a seed determines. *)
Variable rng_seed : Z -> Rng.
(** [Random._randbelow(n)]: a number below [n] and the next state. *)
Variable randbelow : Rng -> nat -> nat * Rng.
(** The order in which the interpreter iterates over a set of [str]. *)
Variable set_order : gset string -> list string.
(** [Path.resolve().as_posix()]. *)
Variable resolve_posix : string -> string.

(** Body of the loop of [random.shuffle]:
    [j = randbelow(i + 1); x[i], x[j] = x[j], x[i]]. *)
Definition shuffle_step {A : Type} (st : list A * Rng) (i : nat)
  : list A * Rng :=
  let '(x, g) := st in
  let '(j, g') := randbelow g (i + 1) in
  (swap i j x, g').

(** [random.shuffle(x)]: [for i in reversed(range(1, len(x)))]. *)
Definition shuffle {A : Type} (x : list A) (g : Rng) : list A * Rng :=
  fold_left shuffle_step (rev (seq 1 (length x - 1))) (x, g).

(** Lines 358-370: the text of [dataset.yaml]. *)
Definition yaml_content (output_dir : string) : string :=
  "# YOLOv8 Chest X-ray Dataset Config" +:+ nl
  +:+ "# Auto-generated by convert_annotations.py" +:+ nl
  +:+ nl
  +:+ "path: " +:+ resolve_posix output_dir +:+ nl
  +:+ "train: images/train" +:+ nl
  +:+ "val: images/val" +:+ nl
  +:+ nl
  +:+ "nc: " +:+ format_int (Z.of_nat NUM_CLASSES) +:+ nl
  +:+ "names: " +:+ py_repr_list CLASS_NAMES +:+ nl.

(** Body of the loop [for img_id in split_set] (lines 329-351). *)
Definition materialize_one (labels : list (string * list string))
    (images_dir output_dir split_name : string)
    (st : gmap string string * nat * nat) (img_id : string)
  : gmap string string * nat * nat :=
  let '(fs, n_missing, n_copied) := st in
  let jpg := path_join images_dir (img_id +:+ ".jpg") in
  let png := path_join images_dir (img_id +:+ ".png") in
  let src_img :=
    match fs !! jpg with
    | Some _ => Some jpg
    | None => match fs !! png with Some _ => Some png | None => None end
    end in
  match src_img with
  | None => (fs, S n_missing, n_copied)
  | Some src =>
      let dst_img :=
        path_join (path_join (path_join output_dir "images") split_name)
                  (img_id +:+ ".jpg") in
      let fs1 :=
        match fs !! dst_img with
        | Some _ => fs
        | None => <[dst_img := default "" (fs !! src)]> fs
        end in
      let dst_label :=
        path_join (path_join (path_join output_dir "labels") split_name)
                  (img_id +:+ ".txt") in
      let fs2 :=
        match alist_lookup img_id labels with
        | Some lines => <[dst_label := String.concat nl lines +:+ nl]> fs1
        | None =>
            match fs1 !! dst_label with
            | Some _ => fs1
            | None => <[dst_label := ""]> fs1
            end
        end in
      (fs2, n_missing, S n_copied)
  end.

Definition materialize_split (labels : list (string * list string))
    (images_dir output_dir : string)
    (st : gmap string string * nat * nat) (split : string * gset string)
  : gmap string string * nat * nat :=
  fold_left (materialize_one labels images_dir output_dir (fst split))
            (set_order (snd split)) st.

Definition convert_dataset (df : list Row) (fs : gmap string string)
    (images_dir output_dir : string)
    (val_split iou_thr include_no_finding_ratio : Q) (seed : Z) : Run :=
  let g0 := rng_seed seed in
  (* 2. finding / no-finding images *)
  let finding_df := List.filter is_finding_row df in
  let no_finding_ids :=
    pd_unique (map image_id (List.filter (fun r => negb (is_finding_row r)) df)) in
  let finding_ids := pd_unique (map image_id finding_df) in
  let pure_no_finding : gset string :=
    list_to_set no_finding_ids ∖ list_to_set finding_ids in
  let finding_df := List.filter has_bbox finding_df in
  (* 3, 4. aggregation *)
  let yolo_labels := yolo_labels_of iou_thr finding_df in
  (* 5. split *)
  let shuffled := shuffle (map fst yolo_labels) g0 in
  let finding_image_list := fst shuffled in
  let g1 := snd shuffled in
  let val_count :=
    py_int (inject_Z (Z.of_nat (length finding_image_list)) * val_split) in
  let val_images : gset string :=
    list_to_set (slice_to finding_image_list val_count) in
  let train_images : gset string :=
    list_to_set (slice_from finding_image_list val_count) in
  let no_finding_list := fst (shuffle (set_order pure_no_finding) g1) in
  let n_no_finding :=
    py_int (inject_Z (Z.of_nat (length finding_image_list))
            * include_no_finding_ratio) in
  let n_no_finding := Z.min n_no_finding (Z.of_nat (length no_finding_list)) in
  let selected_no_finding := slice_to no_finding_list n_no_finding in
  let nf_val :=
    py_int (inject_Z (Z.of_nat (length selected_no_finding)) * val_split) in
  let no_finding_val : gset string :=
    list_to_set (slice_to selected_no_finding nf_val) in
  let no_finding_train : gset string :=
    list_to_set (slice_from selected_no_finding nf_val) in
  let train_all := train_images ∪ no_finding_train in
  let val_all := val_images ∪ no_finding_val in
  (* 6. files *)
  let written :=
    fold_left (materialize_split yolo_labels images_dir output_dir)
              [("train"%string, train_all); ("val"%string, val_all)]
              (fs, 0%nat, 0%nat) in
  let yaml_path := path_join output_dir "dataset.yaml" in
  let fs' := <[yaml_path := yaml_content output_dir]> (fst (fst written)) in
  (* per-class statistics *)
  let stats :=
    map (fun i => class_counts_of yolo_labels (Z.of_nat i)) (seq 0 NUM_CLASSES) in
  mkRun pure_no_finding yolo_labels finding_image_list val_count
        val_images train_images no_finding_list
        selected_no_finding nf_val no_finding_val no_finding_train
        train_all val_all fs' (snd (fst written)) (snd written) stats.

End Pipeline.

(** ** Fixtures for the examples *)

Definition unit_box : Box := mkBox 0 0 1 1.
Definition small_box : Box := mkBox (10#100) (10#100) (30#100) (30#100).
Definition flat_box : Box := mkBox (1#2) (1#2) (1#2) (1#2).

(** A chain of three boxes of one label: each overlaps the next by more
    than one half, the first and the last by less. *)
Definition chain_boxes : list (list Box) :=
  [[mkBox 0 0 1 1; mkBox (3#10) 0 (13#10) 1; mkBox (6#10) 0 (16#10) 1]].
Definition chain_scores : list (list Q) := [[1; 1; 1]].
Definition chain_labels : list (list Z) := [[0%Z; 0%Z; 0%Z]].

(** A small generator: the state is a counter, the draw its residue. *)
Definition demo_seed (seed : Z) : nat := Z.to_nat seed.
Definition demo_randbelow (g n : nat) : nat * nat := (g mod n, S g)%nat.

(** Two iteration orders of a set: the one of [elements], and its reverse. *)
Definition order_a (X : gset string) : list string := elements X.
Definition order_b (X : gset string) : list string := rev (elements X).

Definition demo_resolve (p : string) : string := p.

Definition demo_convert (order : gset string -> list string) :=
  convert_dataset demo_seed demo_randbelow order demo_resolve.

Definition finding_row (img rad : string) (cls : Z) (x1 y1 x2 y2 : Q) : Row :=
  mkRow img cls rad (Some x1) (Some y1) (Some x2) (Some y2) 2048 2048 (1#2) (1#2).

Definition no_finding_row (img rad : string) : Row :=
  mkRow img 14 rad None None None None 2048 2048 (1#2) (1#2).

(** One image with a finding seen by two radiologists, two images
    without findings. *)
Definition demo_df : list Row :=
  [finding_row "f1" "R1" 3 (1024 * (10#100)) (1024 * (10#100)) (1024 * (30#100)) (1024 * (30#100));
   finding_row "f1" "R2" 3 (1024 * (12#100)) (1024 * (11#100)) (1024 * (31#100)) (1024 * (29#100));
   no_finding_row "a" "R1";
   no_finding_row "b" "R1"].

(** Storage in which the image of [f1] is missing. *)
Definition demo_fs_missing : gmap string string :=
  <["in/a.jpg" := "A"]> (<["in/b.png" := "B"]> ∅).

(** Storage holding every image of [demo_df]. *)
Definition demo_fs : gmap string string :=
  <["in/f1.jpg" := "F1"]> (<["in/a.jpg" := "A"]> (<["in/b.png" := "B"]> ∅)).

(** ** Vocabulary of the statements *)

(** How many fused entries carry [label]. *)
Definition count_label (label : Z) (out : list Fused) : nat :=
  length (List.filter (fun f => (snd f =? label)%Z) out).

(** How many pooled boxes carry [label]. *)
Definition pooled_count (label : Z) (all : list (Box * Q * Z)) : nat :=
  length (select_label label all).

(** The renormalised weight of each member of a cluster. *)
Definition cluster_weights (cluster : list (Box * Q)) : list Q :=
  map (fun m => snd m / Qsum (map snd cluster)) cluster.

(** The score-weighted mean of one coordinate over a cluster, with the
    renormalised weights. *)
Definition weighted_mean (f : Box -> Q) (cluster : list (Box * Q)) : Q :=
  Qsum (zip_with (fun m w => w * f (fst m)) cluster (cluster_weights cluster)).


(** Least and greatest value of one coordinate over a cluster. *)
Definition coord_min (f : Box -> Q) (cluster : list (Box * Q)) : Q :=
  match cluster with
  | [] => 0
  | m :: r => fold_right (fun m acc => Qmin (f (fst m)) acc) (f (fst m)) r
  end.

Definition coord_max (f : Box -> Q) (cluster : list (Box * Q)) : Q :=
  match cluster with
  | [] => 0
  | m :: r => fold_right (fun m acc => Qmax (f (fst m)) acc) (f (fst m)) r
  end.

(** The four coordinate projections of a box. *)
Definition coords : list (Box -> Q) := [bx1; by1; bx2; by2].

(** The clusters the fusion forms for [label]. *)
Definition label_clusters (boxes_list : list (list Box))
    (scores_list : list (list Q)) (labels_list : list (list Z))
    (iou_thr skip_box_thr : Q) (label : Z) : list (list (Box * Q)) :=
  clusters_of
    (select_label label (pool boxes_list scores_list labels_list skip_box_thr))
    iou_thr.



(** An iteration order of sets lists every element of a set once. *)
Definition enumerates (order : gset string -> list string) : Prop :=
  forall X, order X ≡ₚ elements X.

(** The per-class counts of the in-memory fusion state: for each class
    id below [NUM_CLASSES], the number of fused entries with that label
    over all images that obtained at least one. *)
Definition fused_class_counts (iou_thr : Q) (df : list Row) : list nat :=
  let finding_df := List.filter has_bbox (List.filter is_finding_row df) in
  map (fun i => count_label (Z.of_nat i)
                  (concat (map snd (fused_labels iou_thr finding_df))))
      (seq 0 NUM_CLASSES).

(** The lines of a text: the pieces that newline characters end, and a
    last piece without newline when it is not empty. *)
Fixpoint split_lines (s acc : string) : list string :=
  match s with
  | EmptyString => match acc with EmptyString => [] | _ => [acc] end
  | String c r =>
      if Ascii.eqb c (ascii_of_nat 10) then acc :: split_lines r EmptyString
      else split_lines r (acc +:+ String c EmptyString)
  end.

(** Per-class counts as the specification words them (3 and 4.5):
    recomputed by scanning the label artifacts lying under
    [<out>/labels/] after the run. *)
Definition scanned_class_counts (fs : gmap string string)
    (output_dir : string) : list nat :=
  let label_files :=
    List.filter (fun pc => String.prefix (path_join output_dir "labels" +:+ "/")
                                         (fst pc))
                (map_to_list fs) in
  let label_lines :=
    concat (map (fun pc => split_lines (snd pc) EmptyString) label_files) in
  map (fun i => length (List.filter
                          (fun line => bool_decide (line_class line = Some (Z.of_nat i)))
                          label_lines))
      (seq 0 NUM_CLASSES).

(** A box inside the unit square. *)
Definition in_unit_square (b : Box) : Prop :=
  0 <= bx1 b /\ bx2 b <= 1 /\ 0 <= by1 b /\ by2 b <= 1.

(** Two boxes with equal coordinates. *)
Definition Box_eq (a b : Box) : Prop :=
  bx1 a == bx1 b /\ by1 a == by1 b /\ bx2 a == bx2 b /\ by2 a == by2 b.


(** Two boxes that do not overlap: one ends before the other begins, on
    one of the axes. *)
Definition apart (a b : Box) : Prop :=
  bx2 a <= bx1 b \/ bx2 b <= bx1 a \/ by2 a <= by1 b \/ by2 b <= by1 a.

(** The rows with key [k], in their original order. *)
Definition rows_with {V : Type} (key : V -> string) (k : string)
    (rows : list V) : list V :=
  List.filter (fun r => bool_decide (key r = k)) rows.

(** The display size lines 203-204 compute from one row. *)
Definition display_size (r : Row) : Q * Q :=
  (raw_width r * scale_x r, raw_height r * scale_y r).



(** The paths lines 329-343 build for one image. *)
Definition source_jpg (images_dir img_id : string) : string :=
  path_join images_dir (img_id +:+ ".jpg").

Definition source_png (images_dir img_id : string) : string :=
  path_join images_dir (img_id +:+ ".png").

Definition image_path (output_dir split_name img_id : string) : string :=
  path_join (path_join (path_join output_dir "images") split_name)
            (img_id +:+ ".jpg").

Definition label_path (output_dir split_name img_id : string) : string :=
  path_join (path_join (path_join output_dir "labels") split_name)
            (img_id +:+ ".txt").

(** The text line 346 writes for the lines of an image. *)
Definition label_text (lines : list string) : string :=
  String.concat nl lines +:+ nl.

(** The two split names. *)
Definition split_name_ok (s : string) : Prop := s = "train"%string \/ s = "val"%string.

(** Neither [<img_id>.jpg] nor [<img_id>.png] exists under the image
    directory (lines 330-336). *)
Definition source_absent (fs : gmap string string) (images_dir img_id : string)
  : bool :=
  match fs !! source_jpg images_dir img_id, fs !! source_png images_dir img_id with
  | None, None => true
  | _, _ => false
  end.

(** The content of the source the loop picks: the [.jpg] when it exists,
    else the [.png]. *)
Definition source_bytes (fs : gmap string string) (images_dir img_id : string)
  : string :=
  match fs !! source_jpg images_dir img_id with
  | Some b => b
  | None => default ""%string (fs !! source_png images_dir img_id)
  end.

(** The sources of an image do not lie under the output directory. *)
Definition sources_outside (images_dir output_dir img_id : string) : Prop :=
  String.prefix (output_dir +:+ "/") (source_jpg images_dir img_id) = false /\
  String.prefix (output_dir +:+ "/") (source_png images_dir img_id) = false.

(** An image id that is a plain file name: it holds no path separator,
    so that joining it to a directory appends one component. *)
Definition plain_name (s : string) : bool :=
  forallb (fun c => negb (Ascii.eqb c "/")) (list_ascii_of_string s).

(** The passes of the two nested loops of lines 327-351, in order: the
    split name with the image id. *)
Definition split_steps (set_order : gset string -> list string)
    (splits : list (string * gset string)) : list (string * string) :=
  concat (map (fun sp => map (pair (fst sp)) (set_order (snd sp))) splits).

Definition materialize_step (labels : list (string * list string))
    (images_dir output_dir : string)
    (st : gmap string string * nat * nat) (s : string * string)
  : gmap string string * nat * nat :=
  materialize_one labels images_dir output_dir (fst s) st (snd s).

(** How many of [ids] have no source in [fs]. *)
Definition count_absent (fs : gmap string string) (images_dir : string)
    (ids : list string) : nat :=
  length (List.filter (source_absent fs images_dir) ids).

(** Every image id of the table is a plain file name. *)
Definition plain_ids (df : list Row) : bool :=
  forallb (fun r => plain_name (image_id r)) df.

(** The list the outer loop of line 327 runs over. *)
Definition run_splits (r : Run) : list (string * gset string) :=
  [("train"%string, train_images r); ("val"%string, val_images r)].

(** A class id the statistics loop of lines 383-385 prints. *)
Definition reported_class (cls : Z) : bool :=
  ((0 <=? cls) && (cls <? Z.of_nat NUM_CLASSES))%Z.


(** A row whose display size is not zero in either direction. *)
Definition sized (r : Row) : Prop :=
  ~ raw_width r * scale_x r == 0 /\ ~ raw_height r * scale_y r == 0.

(** ** Bookkeeping for the clustering loops *)

Definition item_at (items : list (Box * Q)) (j : nat) : Box * Q :=
  nth j items dflt_item.

(** Indices a scan from seed [i] picks among [js]. *)
Definition picks (items : list (Box * Q)) (iou_thr : Q) (i : nat)
    (used : list bool) (js : list nat) : list nat :=
  List.filter (fun j => negb (nth j used false)
                        && joins iou_thr (item_at items i) (item_at items j)) js.

Definition mark (js : list nat) (used : list bool) : list bool :=
  fold_left (fun u j => <[j:=true]> u) js used.

(** The unclustered entries from index [i] on. *)
Definition remaining (items : list (Box * Q)) (used : list bool) (i : nat)
  : list (Box * Q) :=
  map (item_at items) (List.filter (fun j => negb (nth j used false))
                                   (seq i (length items - i))).

(** Spec 8, example 1. *)
Definition ex1_boxes : list (list Box) :=
  [[mkBox (10#100) (10#100) (30#100) (30#100)];
   [mkBox (12#100) (11#100) (31#100) (29#100)]].
Definition ex1_scores : list (list Q) := [[1]; [1]].
Definition ex1_labels : list (list Z) := [[3%Z]; [3%Z]].

(** * Properties *)

(** ** Lemmas on the builtins *)

Lemma Qlt_bool_iff a b : Qlt_bool a b = true <-> a < b.
Proof.
  unfold Qlt_bool. rewrite negb_true_iff.
  destruct (Qle_bool b a) eqn:E.
  - apply Qle_bool_iff in E. split; [discriminate | intros H; lra].
  - split; [intros _ | reflexivity].
    destruct (Qlt_le_dec a b) as [H|H]; [exact H|].
    apply Qle_bool_iff in H. congruence.
Qed.

Lemma Qlt_bool_false a b : Qlt_bool a b = false <-> b <= a.
Proof.
  destruct (Qlt_bool a b) eqn:E.
  - apply Qlt_bool_iff in E. split; [discriminate | intros H; lra].
  - split; [intros _ | reflexivity].
    destruct (Qlt_le_dec a b) as [H|H]; [|exact H].
    apply Qlt_bool_iff in H. congruence.
Qed.

Lemma py_max_spec a b :
  (a < b /\ py_max a b = b) \/ (b <= a /\ py_max a b = a).
Proof.
  unfold py_max. destruct (Qlt_bool a b) eqn:E.
  - left. apply Qlt_bool_iff in E. auto.
  - right. apply Qlt_bool_false in E. auto.
Qed.

Lemma py_min_spec a b :
  (b < a /\ py_min a b = b) \/ (a <= b /\ py_min a b = a).
Proof.
  unfold py_min. destruct (Qlt_bool b a) eqn:E.
  - left. apply Qlt_bool_iff in E. auto.
  - right. apply Qlt_bool_false in E. auto.
Qed.



(** ** IoU *)

(** Overlap of two intervals, as [_iou] computes it per axis: it is never
    negative, and when positive it is bounded by both interval lengths. *)
Lemma overlap_len a1 a2 b1 b2 :
  let w := py_max 0 (py_min a2 b2 - py_max a1 b1) in
  0 <= w /\ (w == 0 \/ (0 < w /\ w <= a2 - a1 /\ w <= b2 - b1)).
Proof.
  cbv zeta.
  destruct (py_min_spec a2 b2) as [[H1 ->]|[H1 ->]];
  destruct (py_max_spec a1 b1) as [[H2 ->]|[H2 ->]];
  match goal with |- context [py_max 0 ?t] =>
    destruct (py_max_spec 0 t) as [[H3 ->]|[H3 ->]] end;
  (split; [lra|]); try (left; lra); right; lra.
Qed.


Lemma _iou_unfold a b :
  _iou a b =
  if Qlt_bool 0 (box_area a + box_area b - inter_area a b)
  then inter_area a b / (box_area a + box_area b - inter_area a b) else 0.
Proof. reflexivity. Qed.

Lemma inter_area_nonneg a b : 0 <= inter_area a b.
Proof.
  unfold inter_area.
  destruct (overlap_len (bx1 a) (bx2 a) (bx1 b) (bx2 b)) as [Hw _].
  destruct (overlap_len (by1 a) (by2 a) (by1 b) (by2 b)) as [Hh _].
  cbv zeta in Hw, Hh. nra.
Qed.


(** A positive intersection forces both boxes to be valid and bounds the
    intersection by either area. *)
Lemma inter_area_pos a b :
  0 < inter_area a b ->
  valid_box a /\ valid_box b /\
  inter_area a b <= box_area a /\ inter_area a b <= box_area b.
Proof.
  unfold inter_area, valid_box, box_area.
  destruct (overlap_len (bx1 a) (bx2 a) (bx1 b) (bx2 b)) as [Hw Hw'].
  destruct (overlap_len (by1 a) (by2 a) (by1 b) (by2 b)) as [Hh Hh'].
  cbv zeta in Hw, Hh, Hw', Hh'.
  set (w := py_max 0 (py_min (bx2 a) (bx2 b) - py_max (bx1 a) (bx1 b))) in *.
  set (h := py_max 0 (py_min (by2 a) (by2 b) - py_max (by1 a) (by1 b))) in *.
  intros Hpos.
  destruct Hw' as [Hw'|(Hw1 & Hw2 & Hw3)]; [rewrite Hw' in Hpos; lra|].
  destruct Hh' as [Hh'|(Hh1 & Hh2 & Hh3)]; [rewrite Hh' in Hpos; lra|].
  repeat split; try lra; nra.
Qed.

Lemma inter_area_degenerate a b :
  degenerate a \/ degenerate b -> inter_area a b == 0.
Proof.
  intros Hd.
  destruct (Qlt_le_dec 0 (inter_area a b)) as [Hpos|Hle].
  - destruct (inter_area_pos a b Hpos) as ([? ?] & [? ?] & _).
    unfold degenerate in Hd. lra.
  - pose proof (inter_area_nonneg a b). lra.
Qed.

Lemma _iou_range a b : 0 <= _iou a b <= 1.
Proof.
  rewrite _iou_unfold.
  set (u := box_area a + box_area b - inter_area a b).
  destruct (Qlt_bool 0 u) eqn:E; [|lra].
  apply Qlt_bool_iff in E.
  pose proof (inter_area_nonneg a b) as Hn.
  assert (Hiu : inter_area a b <= u).
  { destruct (Qlt_le_dec 0 (inter_area a b)) as [Hpos|Hle]; [|lra].
    destruct (inter_area_pos a b Hpos) as (_ & _ & H1 & H2).
    unfold u. lra. }
  split.
  - apply Qle_shift_div_l; [exact E|lra].
  - apply Qle_shift_div_r; [exact E|lra].
Qed.




Lemma _iou_degenerate a b : degenerate a \/ degenerate b -> _iou a b == 0.
Proof.
  intros Hd. rewrite _iou_unfold.
  pose proof (inter_area_degenerate a b Hd) as Hz.
  destruct (Qlt_bool 0 _) eqn:E; [|reflexivity].
  apply Qlt_bool_iff in E.
  rewrite Hz at 1. field. lra.
Qed.


(** ** Clustering *)

Section Clustering.
Local Open Scope nat_scope.
Variable items : list (Box * Q).
Variable iou_thr : Q.

Local Abbreviation item := (item_at items).
Local Abbreviation picks := (picks items iou_thr).
Local Abbreviation remaining := (remaining items).

Lemma nth_insert_true (used : list bool) j k :
  nth k (<[j:=true]> used) false =
  if decide (j = k) then (if decide (j < length used) then true else false)
  else nth k used false.
Proof.
  rewrite !nth_lookup, list_lookup_insert.
  destruct (decide (j = k)) as [->|Hne].
  - destruct (decide (k < length used)) as [Hlt|Hge].
    + rewrite decide_True by auto. reflexivity.
    + rewrite decide_False by tauto.
      rewrite lookup_ge_None_2 by lia. reflexivity.
  - rewrite decide_False by tauto. reflexivity.
Qed.

Lemma nth_insert_ne (used : list bool) j k :
  j <> k -> nth k (<[j:=true]> used) false = nth k used false.
Proof. intros. rewrite nth_insert_true, decide_False; auto. Qed.

Lemma scan_candidate_eq i cluster used j :
  scan_candidate items iou_thr i (cluster, used) j =
  if negb (nth j used false) && joins iou_thr (item i) (item j)
  then (cluster ++ [item j], <[j:=true]> used)
  else (cluster, used).
Proof.
  unfold scan_candidate, joins, item.
  destruct (nth j used false); simpl; [reflexivity|].
  destruct (Qlt_bool _ _); reflexivity.
Qed.

(** The inner loop adds exactly the picked indices, in order. *)
Lemma scan_fold i js : NoDup js -> forall cluster used,
  fold_left (scan_candidate items iou_thr i) js (cluster, used) =
  (cluster ++ map item (picks i used js), mark (picks i used js) used).
Proof.
  induction 1 as [|j js Hj Hnd IH]; intros cluster used; cbn [fold_left].
  - simpl. rewrite app_nil_r. reflexivity.
  - rewrite scan_candidate_eq.
    assert (Hsame : forall u, (forall k, k ∈ js -> nth k u false = nth k used false) ->
              picks i u js = picks i used js).
    { intros u Hu. unfold picks. apply filter_ext_in.
      intros k Hk. rewrite Hu; [reflexivity|]. apply list_elem_of_In, Hk. }
    assert (Hp : picks i used (j :: js) =
              if negb (nth j used false) && joins iou_thr (item i) (item j)
              then j :: picks i used js else picks i used js) by reflexivity.
    rewrite Hp. clear Hp.
    destruct (negb (nth j used false) && joins iou_thr (item i) (item j)) eqn:E.
    + rewrite IH. cbn [map mark fold_left]. rewrite <- app_assoc. simpl.
      rewrite Hsame; [reflexivity|].
      intros k Hk. apply nth_insert_ne. intros ->. contradiction.
    + rewrite IH. reflexivity.
Qed.

Lemma mark_length js used : length (mark js used) = length used.
Proof.
  revert used. induction js as [|j js IH]; intros used; simpl; [reflexivity|].
  rewrite IH. apply length_insert.
Qed.

Lemma nth_mark js used k :
  (forall j, j ∈ js -> j < length used) ->
  nth k (mark js used) false = nth k used false || bool_decide (k ∈ js).
Proof.
  revert used. induction js as [|j js IH]; intros used Hlt; simpl.
  - rewrite orb_false_r. reflexivity.
  - rewrite IH.
    2:{ intros x Hx. rewrite length_insert. apply Hlt. now right. }
    rewrite nth_insert_true.
    destruct (decide (j = k)) as [->|Hne].
    + rewrite decide_True by (apply Hlt; left).
      rewrite (bool_decide_eq_true_2 (k ∈ k :: js)) by left.
      rewrite orb_true_r. reflexivity.
    + f_equal. apply bool_decide_ext. rewrite elem_of_cons.
      split; [auto | intros [?|?]; [congruence | assumption]].
Qed.

Lemma form_cluster_eq i used :
  form_cluster items iou_thr i used =
  (item i :: map item (picks i (<[i:=true]> used) (seq (S i) (length items - S i))),
   mark (picks i (<[i:=true]> used) (seq (S i) (length items - S i)))
        (<[i:=true]> used)).
Proof.
  unfold form_cluster. rewrite scan_fold by apply NoDup_seq. reflexivity.
Qed.

Lemma picks_unused i used js :
  (forall j, j ∈ js -> i <> j) ->
  picks i (<[i:=true]> used) js = picks i used js.
Proof.
  intros Hne. unfold picks. apply filter_ext_in. intros k Hk.
  rewrite nth_insert_ne; [reflexivity|]. apply Hne, list_elem_of_In, Hk.
Qed.

Lemma filter_filter_and {A} (f g : A -> bool) (l : list A) :
  List.filter f (List.filter g l) = List.filter (fun x => g x && f x) l.
Proof.
  induction l as [|x l IH]; simpl; [reflexivity|].
  destruct (g x); simpl; [destruct (f x); simpl; congruence | exact IH].
Qed.

Lemma map_filter_comm {A B} (f : A -> B) (p : B -> bool) (l : list A) :
  List.filter p (map f l) = map f (List.filter (fun x => p (f x)) l).
Proof.
  induction l as [|x l IH]; simpl; [reflexivity|].
  destruct (p (f x)); simpl; congruence.
Qed.

(** From index [i] on, the outer loop produces the seed-anchored
    clusters of the entries still unclustered. *)
Lemma trace_from k : forall i used cls,
  length used = length items ->
  k = length items - i ->
  snd (fold_left (trace_step items iou_thr) (seq i k) (used, cls)) =
  cls ++ seed_anchored iou_thr (remaining used i).
Proof.
  induction k as [|k IH]; intros i used cls Hlen Hk.
  - unfold remaining. rewrite <- Hk. simpl. simp seed_anchored.
    rewrite app_nil_r. reflexivity.
  - assert (Hi : i < length items) by lia.
    assert (Hrem : remaining used i =
              (if nth i used false then [] else [item i]) ++ remaining used (S i)).
    { unfold remaining. rewrite <- Hk.
      replace (length items - S i) with k by lia. simpl.
      destruct (nth i used false); reflexivity. }
    rewrite <- cons_seq. cbn [fold_left]. unfold trace_step at 2.
    destruct (nth i used false) eqn:Eu.
    + rewrite IH by (auto; lia). rewrite Hrem. reflexivity.
    + rewrite form_cluster_eq.
      set (js := seq (S i) (length items - S i)).
      assert (Hjs : forall j, j ∈ js -> i <> j /\ j < length used).
      { intros j Hj. apply elem_of_seq in Hj. lia. }
      rewrite picks_unused by (intros j Hj; apply Hjs, Hj).
      rewrite IH; [| rewrite mark_length, length_insert; exact Hlen | lia].
      rewrite Hrem. simpl. simp seed_anchored.
      rewrite <- app_assoc. simpl. f_equal. f_equal.
      * f_equal. unfold remaining. fold js.
        rewrite map_filter_comm, filter_filter_and. reflexivity.
      * f_equal. unfold remaining. fold js.
        rewrite map_filter_comm, filter_filter_and. f_equal.
        apply filter_ext_in. intros j Hj. apply list_elem_of_In in Hj.
        rewrite nth_mark.
        2:{ intros x Hx. rewrite length_insert.
            apply list_elem_of_In, filter_In in Hx. destruct Hx as [Hx _].
            apply list_elem_of_In in Hx. apply Hjs, Hx. }
        rewrite nth_insert_ne by (apply Hjs, Hj).
        destruct (nth j used false) eqn:Ej; simpl; [reflexivity|].
        destruct (joins iou_thr (item i) (item j)) eqn:Ejn; simpl.
        -- apply negb_false_iff.
           apply bool_decide_eq_true_2, list_elem_of_In, filter_In.
           split; [apply list_elem_of_In, Hj|]. rewrite Ej, Ejn. reflexivity.
        -- apply negb_true_iff.
           apply bool_decide_eq_false_2. intros Hin.
           apply list_elem_of_In, filter_In in Hin. destruct Hin as [_ Hin].
           rewrite Ejn, andb_false_r in Hin. discriminate.
Qed.

Lemma remaining_all :
  remaining (replicate (length items) false) 0 = items.
Proof.
  unfold remaining. rewrite Nat.sub_0_r.
  assert (Hf : List.filter (fun j => negb (nth j (replicate (length items) false) false))
                 (seq 0 (length items)) = seq 0 (length items)).
  { apply forallb_filter_id. apply forallb_forall. intros j Hj.
    rewrite nth_lookup. destruct (replicate _ _ !! j) eqn:E; [|reflexivity].
    apply lookup_replicate in E. destruct E as [-> _]. reflexivity. }
  rewrite Hf. unfold item. apply nth_ext with (d := dflt_item) (d' := dflt_item).
  - rewrite length_map, length_seq. reflexivity.
  - intros n Hn. rewrite length_map, length_seq in Hn.
    rewrite (nth_indep _ _ (nth 0 items dflt_item)) by (rewrite length_map, length_seq; lia).
    rewrite (map_nth (fun j => nth j items dflt_item)), seq_nth by lia. reflexivity.
Qed.

Lemma clusters_of_seed_anchored :
  clusters_of items iou_thr = seed_anchored iou_thr items.
Proof.
  unfold clusters_of.
  rewrite (trace_from (length items) 0) by (rewrite ?length_replicate; lia).
  rewrite remaining_all. reflexivity.
Qed.
End Clustering.

(** ** Seed-anchored clusters *)

Lemma filter_split_perm {A} (p : A -> bool) (l : list A) :
  List.filter p l ++ List.filter (fun x => negb (p x)) l ≡ₚ l.
Proof.
  induction l as [|x l IH]; simpl; [reflexivity|].
  destruct (p x); simpl.
  - now rewrite IH.
  - rewrite <- Permutation_middle. now rewrite IH.
Qed.

Lemma seed_anchored_length iou_thr l :
  (length (seed_anchored iou_thr l) <= length l)%nat /\
  (l <> [] -> (1 <= length (seed_anchored iou_thr l))%nat).
Proof.
  funelim (seed_anchored iou_thr l); simp seed_anchored; simpl.
  - split; [lia | congruence].
  - destruct H as [IH _]. split; [|lia].
    pose proof (filter_length_le (fun c => negb (joins iou_thr seed c)) rest).
    lia.
Qed.

(** The clusters partition the list they are formed from. *)
Lemma seed_anchored_perm iou_thr l :
  concat (seed_anchored iou_thr l) ≡ₚ l.
Proof.
  funelim (seed_anchored iou_thr l); simp seed_anchored; simpl.
  - reflexivity.
  - rewrite H. constructor. apply filter_split_perm.
Qed.

(** Each cluster is a seed followed by entries that pass the test of
    line 78 against that seed. *)
Lemma seed_anchored_shape iou_thr l c :
  c ∈ seed_anchored iou_thr l ->
  exists seed members,
    c = seed :: members /\ seed ∈ l /\
    Forall (fun m => m ∈ l /\ joins iou_thr seed m = true) members.
Proof.
  funelim (seed_anchored iou_thr l); simp seed_anchored.
  - intros Hin. inversion Hin.
  - intros Hin. apply elem_of_cons in Hin. destruct Hin as [->|Hin].
    + exists seed, (List.filter (joins iou_thr seed) rest).
      split; [reflexivity|]. split; [left|].
      apply Forall_forall. intros m Hm.
      apply list_elem_of_In, filter_In in Hm. destruct Hm as [Hm Hj].
      split; [right; apply list_elem_of_In, Hm | exact Hj].
    + destruct (H c Hin) as (seed' & members & -> & Hs & Hm).
      exists seed', members. split; [reflexivity|].
      assert (Hsub : forall x, x ∈ List.filter (fun c => negb (joins iou_thr seed c)) rest
                               -> x ∈ seed :: rest).
      { intros x Hx. apply list_elem_of_In, filter_In in Hx.
        right. apply list_elem_of_In, Hx. }
      split; [auto|].
      eapply Forall_impl; [exact Hm|]. simpl. intros m [Hm1 Hm2]. auto.
Qed.

(** ** The fusion as a map over clusters *)

Lemma cluster_trace_lockstep items iou_thr label js :
  forall used final cls,
  final = map (fun c => fuse_cluster c label) cls ->
  fold_left (cluster_step items iou_thr label) js (used, final) =
  (fst (fold_left (trace_step items iou_thr) js (used, cls)),
   map (fun c => fuse_cluster c label)
       (snd (fold_left (trace_step items iou_thr) js (used, cls)))).
Proof.
  induction js as [|j js IH]; intros used final cls Hf; cbn [fold_left].
  - simpl. now rewrite Hf.
  - unfold cluster_step at 2, trace_step at 2 4.
    destruct (nth j used false); [apply IH, Hf|].
    destruct (form_cluster items iou_thr j used) as [cluster used'].
    apply IH. rewrite map_app, Hf. reflexivity.
Qed.

Lemma fuse_label_clusters all iou_thr label :
  fuse_label all iou_thr label =
  map (fun c => fuse_cluster c label)
      (clusters_of (select_label label all) iou_thr).
Proof.
  unfold fuse_label, clusters_of.
  rewrite (cluster_trace_lockstep _ _ _ _ _ [] []) by reflexivity.
  reflexivity.
Qed.

Lemma weighted_boxes_fusion_clusters boxes_list scores_list labels_list iou_thr skip_box_thr :
  weighted_boxes_fusion boxes_list scores_list labels_list iou_thr skip_box_thr =
  concat (map (fun label =>
                 map (fun c => fuse_cluster c label)
                     (label_clusters boxes_list scores_list labels_list
                                     iou_thr skip_box_thr label))
              (np_unique (map snd
                 (pool boxes_list scores_list labels_list skip_box_thr)))).
Proof.
  unfold weighted_boxes_fusion, label_clusters.
  set (all := pool boxes_list scores_list labels_list skip_box_thr).
  assert (Hgen : concat (map (fuse_label all iou_thr) (np_unique (map snd all))) =
    concat (map (fun label => map (fun c => fuse_cluster c label)
                   (clusters_of (select_label label all) iou_thr))
                (np_unique (map snd all)))).
  { f_equal. apply map_ext. intros label. apply fuse_label_clusters. }
  destruct (Nat.eqb (length boxes_list) 0) eqn:E1.
  - apply Nat.eqb_eq in E1. destruct boxes_list; [|discriminate].
    reflexivity.
  - destruct (Nat.eqb (length all) 0) eqn:E2; [|exact Hgen].
    apply Nat.eqb_eq in E2. destruct all; [|discriminate]. reflexivity.
Qed.

(** ** [np.unique] *)

Lemma elem_of_insert_unique x y l :
  y ∈ insert_unique x l <-> y = x \/ y ∈ l.
Proof.
  induction l as [|z l IH]; simpl.
  - rewrite list_elem_of_singleton. split; [auto | intros [H|H]; [auto | inversion H]].
  - destruct (x <? z)%Z eqn:E1.
    + rewrite elem_of_cons. tauto.
    + destruct (x =? z)%Z eqn:E2.
      * apply Z.eqb_eq in E2. subst z. rewrite elem_of_cons. tauto.
      * rewrite !elem_of_cons, IH. tauto.
Qed.

Lemma insert_unique_sorted x l :
  StronglySorted Z.lt l -> StronglySorted Z.lt (insert_unique x l).
Proof.
  induction 1 as [|z l Hs IH Hz]; simpl.
  - repeat constructor.
  - destruct (x <? z)%Z eqn:E1.
    + apply Z.ltb_lt in E1. constructor; [constructor; assumption|].
      constructor; [exact E1|].
      eapply Forall_impl; [exact Hz|]. simpl. intros; lia.
    + destruct (x =? z)%Z eqn:E2; [constructor; assumption|].
      apply Z.ltb_ge in E1. apply Z.eqb_neq in E2.
      constructor; [exact IH|].
      apply Forall_forall. intros y Hy.
      apply elem_of_insert_unique in Hy.
      destruct Hy as [->|Hy]; [lia|].
      rewrite Forall_forall in Hz. apply Hz, Hy.
Qed.

Lemma np_unique_sorted l : StronglySorted Z.lt (np_unique l).
Proof.
  induction l as [|x l IH]; simpl; [constructor|].
  apply insert_unique_sorted, IH.
Qed.

Lemma elem_of_np_unique x l : x ∈ np_unique l <-> x ∈ l.
Proof.
  induction l as [|y l IH]; simpl; [reflexivity|].
  rewrite elem_of_insert_unique, IH, elem_of_cons. reflexivity.
Qed.

Lemma sorted_lt_NoDup l : StronglySorted Z.lt l -> NoDup l.
Proof.
  induction 1 as [|z l Hs IH Hz]; constructor; [|exact IH].
  intros Hin. rewrite Forall_forall in Hz.
  apply Hz in Hin. lia.
Qed.

Lemma np_unique_NoDup l : NoDup (np_unique l).
Proof. apply sorted_lt_NoDup, np_unique_sorted. Qed.

(** ** Counting fused entries per label *)

Lemma count_label_app label a b :
  count_label label (a ++ b) = (count_label label a + count_label label b)%nat.
Proof. unfold count_label. rewrite List.filter_app, length_app. reflexivity. Qed.

Lemma count_label_fused label label' (cls : list (list (Box * Q))) :
  count_label label (map (fun c => fuse_cluster c label') cls) =
  if (label' =? label)%Z then length cls else 0%nat.
Proof.
  unfold count_label.
  induction cls as [|c cls IH]; simpl.
  - destruct (label' =? label)%Z; reflexivity.
  - destruct (label' =? label)%Z; simpl; [f_equal|]; exact IH.
Qed.

Lemma count_label_concat label (G : Z -> list (list (Box * Q))) ls :
  NoDup ls ->
  count_label label
    (concat (map (fun l' => map (fun c => fuse_cluster c l') (G l')) ls)) =
  if bool_decide (label ∈ ls) then length (G label) else 0%nat.
Proof.
  induction 1 as [|l' ls Hni Hnd IH]; simpl; [reflexivity|].
  rewrite count_label_app, count_label_fused, IH.
  destruct (l' =? label)%Z eqn:E.
  - apply Z.eqb_eq in E. subst l'.
    rewrite (bool_decide_eq_false_2 _ Hni).
    rewrite bool_decide_eq_true_2 by left. lia.
  - apply Z.eqb_neq in E.
    destruct (bool_decide (label ∈ ls)) eqn:Eb.
    + apply bool_decide_eq_true_1 in Eb.
      rewrite bool_decide_eq_true_2 by (right; exact Eb). reflexivity.
    + apply bool_decide_eq_false_1 in Eb.
      rewrite bool_decide_eq_false_2; [reflexivity|].
      rewrite elem_of_cons. intros [?|?]; [congruence | contradiction].
Qed.

Lemma select_label_nil label (all : list (Box * Q * Z)) :
  label ∉ map snd all -> select_label label all = [].
Proof.
  unfold select_label. induction all as [|[[b s] l] all IH]; simpl; [reflexivity|].
  intros Hni. rewrite not_elem_of_cons in Hni. destruct Hni as [Hne Hni].
  destruct (l =? label)%Z eqn:E; [apply Z.eqb_eq in E; congruence|].
  apply IH, Hni.
Qed.

Lemma count_label_fusion boxes_list scores_list labels_list iou_thr skip_box_thr label :
  count_label label
    (weighted_boxes_fusion boxes_list scores_list labels_list iou_thr skip_box_thr) =
  length (label_clusters boxes_list scores_list labels_list iou_thr skip_box_thr label).
Proof.
  rewrite weighted_boxes_fusion_clusters.
  rewrite count_label_concat by apply np_unique_NoDup.
  destruct (bool_decide _) eqn:E; [reflexivity|].
  apply bool_decide_eq_false_1 in E. rewrite elem_of_np_unique in E.
  unfold label_clusters. rewrite (select_label_nil _ _ E). reflexivity.
Qed.

(** C3. For every class label, the fusion emits at most as many consensus
    boxes with that label as there are pooled boxes with it (boxes whose
    score exceeds the skip threshold), at least one when there is at
    least one pooled box, and none when there is none. *)
Theorem C3_fused_count_bounds boxes_list scores_list labels_list iou_thr skip_box_thr label :
  let out := count_label label
    (weighted_boxes_fusion boxes_list scores_list labels_list iou_thr skip_box_thr) in
  let pooled := pooled_count label
    (pool boxes_list scores_list labels_list skip_box_thr) in
  (out <= pooled)%nat /\
  ((1 <= pooled)%nat -> (1 <= out)%nat) /\
  (pooled = 0%nat -> out = 0%nat).
Proof.
  cbv zeta. rewrite count_label_fusion. unfold label_clusters, pooled_count.
  rewrite clusters_of_seed_anchored.
  set (items := select_label label _).
  destruct (seed_anchored_length iou_thr items) as [Hle Hge].
  split; [exact Hle|]. split.
  - intros Hp. apply Hge. intros ->. simpl in Hp. lia.
  - intros Hz. lia.
Qed.

Lemma C3_fused_count_bounds_witness :
  (1 <= pooled_count 3 (pool ex1_boxes ex1_scores ex1_labels 0))%nat /\
  (1 <= count_label 3
          (weighted_boxes_fusion ex1_boxes ex1_scores ex1_labels (1#2) 0))%nat.
Proof.
  assert (Hp : (1 <= pooled_count 3 (pool ex1_boxes ex1_scores ex1_labels 0))%nat)
    by (vm_compute; lia).
  split; [exact Hp|].
  apply (C3_fused_count_bounds ex1_boxes ex1_scores ex1_labels (1#2) 0 3), Hp.
Defined.


(** The third box of the chain is within the threshold of the second,
    which joined the first, but not of the first: it starts a cluster of
    its own. *)
Example chain_not_merged :
  (1#2) < _iou (mkBox (3#10) 0 (13#10) 1) (mkBox (6#10) 0 (16#10) 1) /\
  _iou (mkBox 0 0 1 1) (mkBox (6#10) 0 (16#10) 1) <= (1#2) /\
  label_clusters chain_boxes chain_scores chain_labels (1#2) 0 0 =
    [[(mkBox 0 0 1 1, 1); (mkBox (3#10) 0 (13#10) 1, 1)];
     [(mkBox (6#10) 0 (16#10) 1, 1)]].
Proof.
  split; [vm_compute; reflexivity|]. split; [vm_compute; discriminate|].
  vm_compute. reflexivity.
Qed.

(** ** Sums, weights and means *)

Lemma Qsum_scale (t : Q) (l : list Q) :
  Qsum (map (fun s => s / t) l) == Qsum l / t.
Proof.
  induction l as [|s l IH]; simpl.
  - unfold Qdiv. ring.
  - rewrite IH. unfold Qdiv. ring.
Qed.

Lemma Qsum_pos (l : list Q) :
  l <> [] -> Forall (fun s => 0 < s) l -> 0 < Qsum l.
Proof.
  intros Hne Hall. destruct l as [|s l]; [congruence|]. clear Hne.
  apply Forall_cons in Hall. destruct Hall as [Hs Hl]. simpl.
  assert (0 <= Qsum l); [|lra].
  induction Hl as [|x l Hx Hl IH]; simpl; lra.
Qed.


Lemma cluster_weights_sum (c : list (Box * Q)) :
  ~ Qsum (map snd c) == 0 -> Qsum (cluster_weights c) == 1.
Proof.
  intros Hnz. unfold cluster_weights.
  rewrite <- (map_map snd (fun s => s / Qsum (map snd c))).
  rewrite Qsum_scale. field. exact Hnz.
Qed.

Lemma wsum_cluster (f : Box -> Q) (c : list (Box * Q)) :
  wsum f (map fst c) (map (fun s => s / Qsum (map snd c)) (map snd c))
  == weighted_mean f c.
Proof.
  unfold wsum, weighted_mean, cluster_weights.
  generalize (Qsum (map snd c)) as t. intros t.
  induction c as [|[b s] c IH]; simpl; [reflexivity|].
  rewrite IH. ring.
Qed.

(** A combination with non-negative weights stays between the bounds of
    its points, scaled by the total weight. *)
Lemma weighted_between (f : Box -> Q) (lo hi : Q) (c : list (Box * Q)) (ws : list Q) :
  Forall (fun m => lo <= f (fst m) <= hi) c ->
  Forall (fun w => 0 <= w) ws ->
  length ws = length c ->
  lo * Qsum ws <= Qsum (zip_with (fun m w => w * f (fst m)) c ws) <= hi * Qsum ws.
Proof.
  intros Hc. revert ws. induction Hc as [|m c Hm Hc IH]; intros ws Hw Hlen.
  - destruct ws; [|discriminate]. simpl. lra.
  - destruct ws as [|w ws]; [discriminate|]. simpl in *.
    apply Forall_cons in Hw. destruct Hw as [Hw0 Hw].
    specialize (IH ws Hw ltac:(lia)). nra.
Qed.

Lemma coord_bounds (f : Box -> Q) (c : list (Box * Q)) :
  Forall (fun m => coord_min f c <= f (fst m) <= coord_max f c) c.
Proof.
  destruct c as [|m0 r]; [constructor|]. unfold coord_min, coord_max.
  assert (H : forall lo hi, lo <= hi ->
    Forall (fun m => fold_right (fun m acc => Qmin (f (fst m)) acc) lo r
                     <= f (fst m)
                     <= fold_right (fun m acc => Qmax (f (fst m)) acc) hi r) r
    /\ fold_right (fun m acc => Qmin (f (fst m)) acc) lo r <= lo
    /\ hi <= fold_right (fun m acc => Qmax (f (fst m)) acc) hi r).
  { intros lo hi Hlh. induction r as [|m r IH]; simpl.
    - split; [constructor | split; lra].
    - destruct IH as (IH & Hlo & Hhi).
      pose proof (Q.le_min_l (f (fst m)) (fold_right (fun m acc => Qmin (f (fst m)) acc) lo r)).
      pose proof (Q.le_min_r (f (fst m)) (fold_right (fun m acc => Qmin (f (fst m)) acc) lo r)).
      pose proof (Q.le_max_l (f (fst m)) (fold_right (fun m acc => Qmax (f (fst m)) acc) hi r)).
      pose proof (Q.le_max_r (f (fst m)) (fold_right (fun m acc => Qmax (f (fst m)) acc) hi r)).
      split; [|split; lra].
      constructor; [lra|].
      eapply Forall_impl; [exact IH|]. simpl. intros; lra. }
  destruct (H (f (fst m0)) (f (fst m0)) ltac:(lra)) as (Hr & Hlo & Hhi).
  constructor; [lra | exact Hr].
Qed.

(** What [fuse_cluster] returns for a cluster whose scores are positive. *)
Lemma fuse_cluster_positive (c : list (Box * Q)) (label : Z) :
  c <> [] -> Forall (fun m => 0 < snd m) c ->
  Qsum (cluster_weights c) == 1 /\
  exists box,
    fuse_cluster c label =
      (Some box, Qsum (map snd c) / inject_Z (Z.of_nat (length (map snd c))), label) /\
    Forall (fun f => f box == weighted_mean f c /\
                     coord_min f c <= f box <= coord_max f c) coords.
Proof.
  intros Hne Hpos.
  assert (Htot : 0 < Qsum (map snd c)).
  { apply Qsum_pos; [destruct c; [congruence | discriminate]|].
    apply Forall_map. exact Hpos. }
  assert (Hnz : ~ Qsum (map snd c) == 0) by lra.
  pose proof (cluster_weights_sum c Hnz) as Hw1.
  split; [exact Hw1|].
  unfold fuse_cluster, normalize_weights, np_average, np_mean.
  destruct (Qeq_bool (Qsum (map snd c)) 0) eqn:E0;
    [apply Qeq_bool_iff in E0; contradiction|].
  assert (Hscl : Qsum (map (fun s => s / Qsum (map snd c)) (map snd c)) == 1).
  { rewrite Qsum_scale. field. exact Hnz. }
  destruct (Qeq_bool (Qsum (map (fun s => s / Qsum (map snd c)) (map snd c))) 0) eqn:E1.
  { apply Qeq_bool_iff in E1. rewrite Hscl in E1. discriminate. }
  eexists. split; [reflexivity|].
  assert (Hbetween : forall f,
    coord_min f c <= weighted_mean f c <= coord_max f c).
  { intros f.
    pose proof (weighted_between f (coord_min f c) (coord_max f c) c
                  (cluster_weights c) (coord_bounds f c)) as Hb.
    rewrite Hw1 in Hb. rewrite !Qmult_1_r in Hb. apply Hb.
    - unfold cluster_weights. apply Forall_map.
      eapply Forall_impl; [exact Hpos|]. simpl. intros m Hm.
      apply Qle_shift_div_l; lra.
    - unfold cluster_weights. now rewrite length_map. }
  assert (Hcoord : forall f,
    wsum f (map fst c) (map (fun s => s / Qsum (map snd c)) (map snd c))
    / Qsum (map (fun s => s / Qsum (map snd c)) (map snd c))
    == weighted_mean f c).
  { intros f. rewrite Hscl, wsum_cluster. field. }
  unfold coords.
  repeat (constructor; [simpl; split; [apply Hcoord | rewrite Hcoord; apply Hbetween]|]).
  constructor.
Qed.

(** ** Provenance of clusters *)

Lemma elem_of_pool boxes_list scores_list labels_list skip_box_thr b s l :
  (b, s, l) ∈ pool boxes_list scores_list labels_list skip_box_thr ->
  skip_box_thr < s.
Proof.
  unfold pool. intros Hin. apply list_elem_of_In, in_concat in Hin.
  destruct Hin as (grp & Hgrp & Hin).
  apply in_map_iff in Hgrp. destruct Hgrp as ([[bs ss] ls] & <- & _).
  apply filter_In in Hin. destruct Hin as [_ Hs].
  apply Qlt_bool_iff, Hs.
Qed.

Lemma elem_of_select_label label all b s :
  (b, s) ∈ select_label label all -> (b, s, label) ∈ all.
Proof.
  unfold select_label. intros Hin.
  apply list_elem_of_fmap in Hin. destruct Hin as ([[b' s'] l] & Heq & Hin).
  simpl in Heq. inversion Heq; subst b' s'.
  apply list_elem_of_In, filter_In in Hin. destruct Hin as [Hin Hl].
  apply Z.eqb_eq in Hl. subst l. apply list_elem_of_In, Hin.
Qed.

Lemma cluster_members iou_thr items c :
  c ∈ clusters_of items iou_thr -> c <> [] /\ Forall (fun m => m ∈ items) c.
Proof.
  rewrite clusters_of_seed_anchored. intros Hc.
  destruct (seed_anchored_shape _ _ _ Hc) as (seed & members & -> & Hs & Hm).
  split; [discriminate|]. constructor; [exact Hs|].
  eapply Forall_impl; [exact Hm|]. simpl. tauto.
Qed.




(** ** Unit scores *)





Lemma elem_of_zip3 {A B C} (xs : list A) (ys : list B) (zs : list C) x y z :
  (x, y, z) ∈ zip3 xs ys zs -> y ∈ ys.
Proof.
  unfold zip3. intros Hin. apply elem_of_zip_l in Hin.
  apply elem_of_zip_r in Hin. exact Hin.
Qed.



Lemma elem_of_fusion boxes_list scores_list labels_list iou_thr skip_box_thr e :
  e ∈ weighted_boxes_fusion boxes_list scores_list labels_list iou_thr skip_box_thr ->
  exists c,
    c ∈ label_clusters boxes_list scores_list labels_list iou_thr skip_box_thr (snd e)
    /\ e = fuse_cluster c (snd e).
Proof.
  rewrite weighted_boxes_fusion_clusters. intros Hin.
  apply list_elem_of_In, in_concat in Hin. destruct Hin as (grp & Hgrp & Hin).
  apply in_map_iff in Hgrp. destruct Hgrp as (label & <- & _).
  apply in_map_iff in Hin. destruct Hin as (c & <- & Hc).
  exists c. simpl. split; [apply list_elem_of_In, Hc | reflexivity].
Qed.

Lemma elem_of_fused_labels iou_thr finding_df img_id fused :
  (img_id, fused) ∈ fused_labels iou_thr finding_df ->
  exists rows,
    (img_id, rows) ∈ group_by image_id finding_df /\
    image_fusion iou_thr (default (0, 0) (display_sizes finding_df !! img_id)) rows
    = Some fused.
Proof.
  unfold fused_labels. intros Hin. apply list_elem_of_omap in Hin.
  destruct Hin as ([img rows] & Hin & Hsome).
  destruct (image_fusion _ _ rows) as [[|f fs]|] eqn:E; try discriminate.
  injection Hsome as <- <-. exists rows. split; [exact Hin | exact E].
Qed.


(** ** Python containers *)

Lemma insert_swap_perm {A} (x : list A) (j : nat) (a y : A) :
  x !! j = Some y -> y :: <[j:=a]> x ≡ₚ a :: x.
Proof.
  revert j. induction x as [|b x IH]; intros [|j] Hj; simpl in *; try discriminate.
  - injection Hj as ->. apply perm_swap.
  - rewrite perm_swap. rewrite (IH _ Hj). apply perm_swap.
Qed.

Lemma swap_perm {A} (i j : nat) (x : list A) : swap i j x ≡ₚ x.
Proof.
  revert i j. induction x as [|a x IH]; intros i j; [destruct i, j; reflexivity|].
  destruct i as [|i], j as [|j]; unfold swap; simpl.
  - reflexivity.
  - destruct (x !! j) as [xj|] eqn:Ej; [|reflexivity].
    simpl. apply insert_swap_perm, Ej.
  - destruct (x !! i) as [xi|] eqn:Ei; [|reflexivity].
    simpl. apply insert_swap_perm, Ei.
  - specialize (IH i j). unfold swap in IH.
    destruct (x !! i) as [xi|]; [|reflexivity].
    destruct (x !! j) as [xj|]; [|reflexivity].
    simpl. now rewrite IH.
Qed.

Lemma slice_app {A} (l : list A) (k : Z) : slice_to l k ++ slice_from l k = l.
Proof. apply take_drop. Qed.


Lemma slice_from_length {A} (l : list A) (k : Z) :
  (0 <= k <= Z.of_nat (length l))%Z ->
  length (slice_from l k) = (length l - Z.to_nat k)%nat.
Proof.
  intros Hk. unfold slice_from, slice_bound.
  destruct (k <? 0)%Z eqn:E; [apply Z.ltb_lt in E; lia|].
  rewrite length_drop. lia.
Qed.

Lemma alist_append_keys {V} (k : string) (v : V) (d : list (string * list V)) :
  map fst (alist_append k v d) =
  if bool_decide (k ∈ map fst d) then map fst d else map fst d ++ [k].
Proof.
  induction d as [|[k' vs] d IH]; simpl; [reflexivity|].
  destruct (bool_decide (k = k')) eqn:E.
  - apply bool_decide_eq_true_1 in E. subst k'.
    rewrite bool_decide_eq_true_2 by left. reflexivity.
  - apply bool_decide_eq_false_1 in E. simpl. rewrite IH.
    destruct (bool_decide (k ∈ map fst d)) eqn:Ed.
    + apply bool_decide_eq_true_1 in Ed.
      rewrite bool_decide_eq_true_2 by (right; exact Ed). reflexivity.
    + apply bool_decide_eq_false_1 in Ed.
      rewrite bool_decide_eq_false_2; [reflexivity|].
      rewrite elem_of_cons. tauto.
Qed.

Lemma group_by_keys {V} (key : V -> string) (rows : list V) :
  NoDup (map fst (group_by key rows)) /\
  forall k, k ∈ map fst (group_by key rows) -> k ∈ map key rows.
Proof.
  unfold group_by.
  assert (H : forall d : list (string * list V),
    NoDup (map fst d) ->
    NoDup (map fst (fold_left (fun d r => alist_append (key r) r d) rows d)) /\
    forall k, k ∈ map fst (fold_left (fun d r => alist_append (key r) r d) rows d) ->
              k ∈ map fst d \/ k ∈ map key rows).
  { induction rows as [|r rows IH]; intros d Hd; simpl.
    - split; [exact Hd | auto].
    - destruct (IH (alist_append (key r) r d)) as [Hnd Hk].
      + rewrite alist_append_keys. destruct (bool_decide _) eqn:E; [exact Hd|].
        apply bool_decide_eq_false_1 in E.
        apply NoDup_app. split; [exact Hd|]. split.
        * intros x Hx Hx'. apply list_elem_of_singleton in Hx'. subst x. contradiction.
        * apply NoDup_singleton.
      + split; [exact Hnd|]. intros k Hin. apply Hk in Hin.
        rewrite elem_of_cons. destruct Hin as [Hin|Hin]; [|auto].
        rewrite alist_append_keys in Hin.
        destruct (bool_decide _); [auto|].
        apply elem_of_app in Hin. destruct Hin as [Hin|Hin]; [auto|].
        apply list_elem_of_singleton in Hin. auto. }
  destruct (H [] (NoDup_nil_2)) as [Hnd Hk]. split; [exact Hnd|].
  intros k Hin. destruct (Hk k Hin) as [Hn|]; [inversion Hn | assumption].
Qed.

Lemma elem_of_pd_unique (x : string) (l : list string) :
  x ∈ pd_unique l <-> x ∈ l.
Proof.
  unfold pd_unique.
  assert (H : forall acc,
    x ∈ fold_left (fun acc x => if bool_decide (x ∈ acc) then acc else acc ++ [x]) l acc
    <-> x ∈ acc \/ x ∈ l).
  { induction l as [|y l IH]; intros acc; simpl.
    - split; [auto | intros [H|H]; [exact H | inversion H]].
    - rewrite IH, elem_of_cons. destruct (bool_decide (y ∈ acc)) eqn:E.
      + apply bool_decide_eq_true_1 in E. split; [tauto|].
        intros [H|[->|H]]; auto.
      + rewrite elem_of_app, list_elem_of_singleton. tauto. }
  rewrite H. split; [intros [Hn|?]; [inversion Hn | assumption] | auto].
Qed.

(** Keys survive [omap] in order when the function keeps the key. *)
Lemma omap_keys {V W} (F : string * V -> option (string * W))
    (d : list (string * V)) :
  (forall kv kw, F kv = Some kw -> fst kw = fst kv) ->
  NoDup (map fst d) ->
  NoDup (map fst (omap F d)) /\
  forall k, k ∈ map fst (omap F d) -> k ∈ map fst d.
Proof.
  intros HF. induction d as [|kv d IH]; intros Hnd; simpl.
  - split; [constructor | auto].
  - apply NoDup_cons in Hnd. destruct Hnd as [Hni Hnd].
    destruct (IH Hnd) as [IH1 IH2].
    destruct (F kv) as [kw|] eqn:E; simpl.
    + rewrite (HF _ _ E). split.
      * apply NoDup_cons. split; [|exact IH1]. intros Hin. apply Hni, IH2, Hin.
      * intros k Hk. apply elem_of_cons in Hk. rewrite elem_of_cons.
        destruct Hk as [->|Hk]; [auto | right; apply IH2, Hk].
    + split; [exact IH1|]. intros k Hk. right. apply IH2, Hk.
Qed.

Lemma fused_labels_keys iou_thr finding_df :
  NoDup (map fst (fused_labels iou_thr finding_df)) /\
  forall k, k ∈ map fst (fused_labels iou_thr finding_df) ->
            k ∈ map image_id finding_df.
Proof.
  unfold fused_labels.
  destruct (group_by_keys image_id finding_df) as [Hnd Hk].
  match goal with |- context [omap ?F _] =>
    destruct (omap_keys F (group_by image_id finding_df)) as [H1 H2] end.
  - intros [k rows] kw. destruct (image_fusion _ _ rows) as [[|f fs]|]; try discriminate.
    intros [= <-]. reflexivity.
  - exact Hnd.
  - split; [exact H1|]. intros k Hin. apply Hk, H2, Hin.
Qed.

Lemma yolo_labels_of_keys iou_thr finding_df :
  map fst (yolo_labels_of iou_thr finding_df) =
  map fst (fused_labels iou_thr finding_df).
Proof.
  unfold yolo_labels_of. rewrite map_map. apply map_ext.
  intros [img fs]. reflexivity.
Qed.

Lemma yolo_labels_of_nonempty iou_thr finding_df :
  Forall (fun e => snd e <> []) (yolo_labels_of iou_thr finding_df).
Proof.
  unfold yolo_labels_of. apply Forall_map. apply Forall_forall.
  intros [img fs] Hin. unfold fused_labels in Hin.
  apply list_elem_of_omap in Hin. destruct Hin as ([k r] & _ & Hx).
  destruct (image_fusion _ _ r) as [[|f fs']|]; try discriminate.
  injection Hx as <- <-. simpl. discriminate.
Qed.

(** ** The split *)

Lemma py_int_floor (x : Q) : 0 <= x -> py_int x = Qfloor x.
Proof.
  destruct x as [n d]. unfold py_int, Qfloor, Qle. simpl.
  intros Hn. apply Z.quot_div_nonneg; lia.
Qed.


Lemma list_to_set_split (l1 l2 : list string) :
  NoDup (l1 ++ l2) ->
  (list_to_set l1 : gset string) ## list_to_set l2 /\
  (list_to_set l1 : gset string) ∪ list_to_set l2 = list_to_set (l1 ++ l2).
Proof.
  intros Hnd. apply NoDup_app in Hnd. destruct Hnd as (_ & Hd & _). split.
  - apply elem_of_disjoint. intros x H1 H2.
    rewrite elem_of_list_to_set in H1, H2. eapply Hd; eassumption.
  - now rewrite list_to_set_app_L.
Qed.

(** Two disjoint pairs of disjoint sets, recombined crosswise. *)
Lemma cross_partition (A B C D : gset string) :
  A ## B -> C ## D -> (A ∪ B) ## (C ∪ D) ->
  (B ∪ D) ## (A ∪ C) /\ (B ∪ D) ∪ (A ∪ C) = (A ∪ B) ∪ (C ∪ D).
Proof.
  intros HAB HCD HX. rewrite elem_of_disjoint in HAB, HCD, HX. split.
  - apply elem_of_disjoint. intros x H1 H2.
    apply elem_of_union in H1, H2.
    destruct H1 as [H1|H1], H2 as [H2|H2].
    + exact (HAB x H2 H1).
    + apply (HX x); apply elem_of_union; [right | left]; assumption.
    + apply (HX x); apply elem_of_union; [left | right]; assumption.
    + exact (HCD x H2 H1).
  - apply set_eq. intros x. rewrite !elem_of_union. tauto.
Qed.

Section SplitProps.
Context {Rng : Type}.
Variable rng_seed : Z -> Rng.
Variable randbelow : Rng -> nat -> nat * Rng.
Variable set_order : gset string -> list string.
Variable resolve_posix : string -> string.

Local Abbreviation run := (convert_dataset rng_seed randbelow set_order resolve_posix).

Lemma shuffle_perm {A} (x : list A) (g : Rng) :
  fst (shuffle randbelow x g) ≡ₚ x.
Proof.
  unfold shuffle. generalize (rev (seq 1 (length x - 1))) as idx.
  intros idx. revert x g.
  induction idx as [|i idx IH]; intros y g; [reflexivity|].
  cbn [fold_left]. unfold shuffle_step at 2.
  destruct (randbelow g (i + 1)) as [j g'].
  rewrite IH. apply swap_perm.
Qed.

Lemma finding_list_facts df fs images_dir output_dir val_split iou_thr ratio seed :
  let r := run df fs images_dir output_dir val_split iou_thr ratio seed in
  finding_image_list r ≡ₚ map fst (yolo_labels r) /\
  NoDup (finding_image_list r) /\
  (forall x, x ∈ finding_image_list r -> x ∉ pure_no_finding r) /\
  train_findings r = list_to_set (slice_from (finding_image_list r) (val_count r)) /\
  val_findings r = list_to_set (slice_to (finding_image_list r) (val_count r)).
Proof.
  cbv zeta. simpl.
  set (finding_df := List.filter has_bbox (List.filter is_finding_row df)).
  pose proof (shuffle_perm (map fst (yolo_labels_of iou_thr finding_df)) (rng_seed seed)) as Hp.
  destruct (fused_labels_keys iou_thr finding_df) as [Hnd Hk].
  rewrite <- yolo_labels_of_keys in Hnd, Hk.
  split; [exact Hp|]. split; [rewrite Hp; exact Hnd|]. split; [|split; reflexivity].
  intros x Hx. rewrite Hp in Hx. apply Hk in Hx.
  rewrite elem_of_difference, !elem_of_list_to_set, !elem_of_pd_unique.
  intros [_ Hn]. apply Hn.
  unfold finding_df in Hx. apply list_elem_of_fmap in Hx.
  destruct Hx as (row & -> & Hrow).
  apply list_elem_of_In, filter_In in Hrow. destruct Hrow as [Hrow _].
  apply list_elem_of_fmap. exists row. split; [reflexivity|].
  apply list_elem_of_In, Hrow.
Qed.

Lemma no_finding_list_facts df fs images_dir output_dir val_split iou_thr ratio seed :
  enumerates set_order ->
  let r := run df fs images_dir output_dir val_split iou_thr ratio seed in
  no_finding_list r ≡ₚ elements (pure_no_finding r) /\
  NoDup (no_finding_list r) /\
  length (no_finding_list r) = size (pure_no_finding r) /\
  (forall x, x ∈ no_finding_list r -> x ∈ pure_no_finding r).
Proof.
  intros Horder. cbv zeta. simpl.
  match goal with |- context [set_order ?X] => set (pure := X) end.
  match goal with |- context [shuffle randbelow (set_order pure) ?g] =>
    pose proof (shuffle_perm (set_order pure) g) as Hp end.
  apply (fun H => Permutation_trans H (Horder pure)) in Hp.
  split; [exact Hp|]. split; [rewrite Hp; apply NoDup_elements|].
  split; [rewrite Hp; reflexivity|].
  intros x Hx. rewrite Hp in Hx. apply elem_of_elements, Hx.
Qed.

(** C1. The train and val sets of a run are disjoint, their union is
    exactly the finding images (the images that obtained at least one
    consensus box) together with the selected background images, and
    every such image is in exactly one of the two sets. *)
Theorem C1_split_partition df fs images_dir output_dir val_split iou_thr ratio seed :
  enumerates set_order ->
  let r := run df fs images_dir output_dir val_split iou_thr ratio seed in
  train_images r ## val_images r /\
  train_images r ∪ val_images r =
    list_to_set (map fst (yolo_labels r)) ∪ list_to_set (selected_no_finding r) /\
  Forall (fun e => snd e <> []) (yolo_labels r) /\
  Forall (fun img => (img ∈ train_images r /\ (img ∉ val_images r)) \/
                     ((img ∉ train_images r) /\ img ∈ val_images r))
         (map fst (yolo_labels r) ++ selected_no_finding r).
Proof.
  intros Horder.
  pose proof (finding_list_facts df fs images_dir output_dir val_split iou_thr ratio seed)
    as (Hfp & Hfnd & Hfpure & Htf & Hvf).
  pose proof (no_finding_list_facts df fs images_dir output_dir val_split iou_thr ratio seed Horder)
    as (Hnp & Hnnd & _ & Hnpure).
  cbv zeta in *.
  set (r := run df fs images_dir output_dir val_split iou_thr ratio seed) in *.
  assert (Hsel : selected_no_finding r = slice_to (no_finding_list r)
            (Z.min (py_int (inject_Z (Z.of_nat (length (finding_image_list r))) * ratio))
                   (Z.of_nat (length (no_finding_list r))))) by reflexivity.
  assert (Hselnd : NoDup (selected_no_finding r)).
  { rewrite Hsel. unfold slice_to.
    eapply sublist_NoDup; [exact Hnnd | apply sublist_take]. }
  assert (Hselpure : forall x, x ∈ selected_no_finding r -> x ∈ pure_no_finding r).
  { intros x Hx. apply Hnpure. rewrite Hsel in Hx. unfold slice_to in Hx.
    eapply subseteq_take, Hx. }
  assert (Htr : train_images r = train_findings r ∪ no_finding_train r) by reflexivity.
  assert (Hva : val_images r = val_findings r ∪ no_finding_val r) by reflexivity.
  assert (Hnt : no_finding_train r =
            list_to_set (slice_from (selected_no_finding r) (nf_val r))) by reflexivity.
  assert (Hnv : no_finding_val r =
            list_to_set (slice_to (selected_no_finding r) (nf_val r))) by reflexivity.
  pose proof (yolo_labels_of_nonempty iou_thr
                (List.filter has_bbox (List.filter is_finding_row df))) as Hlines.
  change (yolo_labels_of _ _) with (yolo_labels r) in Hlines.
  clearbody r.
  destruct (list_to_set_split (slice_to (finding_image_list r) (val_count r))
              (slice_from (finding_image_list r) (val_count r))) as [Hfd Hfu];
    [rewrite slice_app; exact Hfnd|].
  destruct (list_to_set_split (slice_to (selected_no_finding r) (nf_val r))
              (slice_from (selected_no_finding r) (nf_val r))) as [Hnd' Hnu];
    [rewrite slice_app; exact Hselnd|].
  rewrite slice_app in Hfu, Hnu. rewrite <- Hvf, <- Htf in Hfd, Hfu.
  rewrite <- Hnv, <- Hnt in Hnd', Hnu.
  assert (Hfset : (list_to_set (finding_image_list r) : gset string)
                  = list_to_set (map fst (yolo_labels r))).
  { apply set_eq. intros x. rewrite !elem_of_list_to_set, Hfp. reflexivity. }
  assert (Hcross : (list_to_set (finding_image_list r) : gset string)
                   ## list_to_set (selected_no_finding r)).
  { apply elem_of_disjoint. intros x H1 H2. rewrite elem_of_list_to_set in H1, H2.
    apply (Hfpure x H1), Hselpure, H2. }
  destruct (cross_partition _ _ _ _ Hfd Hnd') as [Hdisj Hunion].
  { rewrite Hfu, Hnu. exact Hcross. }
  rewrite <- Htr, <- Hva, Hfu, Hnu, Hfset in Hunion.
  rewrite <- Htr, <- Hva in Hdisj.
  split; [exact Hdisj|]. split; [exact Hunion|].
  split; [exact Hlines|].
  apply Forall_forall. intros img Himg.
  assert (Hin : img ∈ train_images r ∪ val_images r).
  { rewrite Hunion, elem_of_union, !elem_of_list_to_set.
    apply elem_of_app, Himg. }
  rewrite elem_of_disjoint in Hdisj.
  apply elem_of_union in Hin. destruct Hin as [Hin|Hin]; [left | right].
  - split; [exact Hin|]. intros Hin'. exact (Hdisj img Hin Hin').
  - split; [|exact Hin]. intros Hin'. exact (Hdisj img Hin' Hin).
Qed.


Lemma inject_nat_nonneg (n : nat) : 0 <= inject_Z (Z.of_nat n).
Proof. change 0 with (inject_Z 0). rewrite <- Zle_Qle. lia. Qed.

End SplitProps.

(** ** IoU: the claims *)

Lemma Qdiv_checked_pos a b : 0 < b -> Qdiv_checked a b = Some (a / b).
Proof.
  intros Hb. unfold Qdiv_checked.
  destruct (Qeq_bool b 0) eqn:E; [|reflexivity].
  apply Qeq_bool_iff in E. lra.
Qed.

Lemma _iou_partial_total a b : _iou_partial a b = Some (_iou a b).
Proof.
  unfold _iou_partial. rewrite _iou_unfold.
  destruct (Qlt_bool 0 _) eqn:E; [|reflexivity].
  apply Qlt_bool_iff in E. apply Qdiv_checked_pos, E.
Qed.

Lemma nonpositive_area_degenerate b : box_area b <= 0 -> degenerate b.
Proof.
  unfold box_area, degenerate. intros Ha.
  destruct (Qlt_le_dec (bx1 b) (bx2 b)) as [Hx|Hx]; [|left; exact Hx].
  destruct (Qlt_le_dec (by1 b) (by2 b)) as [Hy|Hy]; [|right; exact Hy].
  exfalso. nra.
Qed.



(** C7. [_iou] never divides by zero, its result lies in [0, 1] for all
    boxes, and it is 0 whenever either box is degenerate: of zero or
    negative area, or without width or height. *)
Theorem C7_iou_total_clamped (a b : Box) :
  _iou_partial a b = Some (_iou a b) /\
  0 <= _iou a b <= 1 /\
  (box_area a <= 0 \/ box_area b <= 0 \/ degenerate a \/ degenerate b ->
   _iou a b == 0).
Proof.
  split; [apply _iou_partial_total|]. split; [apply _iou_range|].
  intros Hd. apply _iou_degenerate.
  destruct Hd as [H|[H|[H|H]]]; auto using nonpositive_area_degenerate.
Qed.

Lemma C7_iou_total_clamped_witness :
  box_area flat_box <= 0 /\ _iou flat_box unit_box == 0.
Proof.
  assert (Hf : box_area flat_box <= 0) by (vm_compute; discriminate).
  split; [exact Hf|].
  apply (C7_iou_total_clamped flat_box unit_box). left. exact Hf.
Defined.

(** ** The split: instances *)

Lemma order_a_enumerates : enumerates order_a.
Proof. intros X. reflexivity. Qed.

Lemma order_b_enumerates : enumerates order_b.
Proof. intros X. unfold order_b. symmetry. apply Permutation_rev. Qed.

Lemma C1_split_partition_witness :
  enumerates order_a /\
  let r := demo_convert order_a demo_df demo_fs "in" "out" (15#100) (1#2) 1 42 in
  train_images r ## val_images r /\
  train_images r ∪ val_images r =
    list_to_set (map fst (yolo_labels r)) ∪ list_to_set (selected_no_finding r) /\
  Forall (fun e => snd e <> []) (yolo_labels r) /\
  Forall (fun img => (img ∈ train_images r /\ (img ∉ val_images r)) \/
                     ((img ∉ train_images r) /\ img ∈ val_images r))
         (map fst (yolo_labels r) ++ selected_no_finding r).
Proof.
  split; [exact order_a_enumerates|].
  apply (C1_split_partition demo_seed demo_randbelow order_a demo_resolve
           demo_df demo_fs "in" "out" (15#100) (1#2) 1 42 order_a_enumerates).
Defined.


(** Spec 8, examples 2 and 3: 1000 images at 0.15 give 150 for val. *)
Example split_of_1000 :
  py_int (inject_Z (Z.of_nat 1000) * (15#100)) = 150%Z /\
  Z.min (py_int (inject_Z (Z.of_nat 1000) * 1)) (Z.of_nat 1000) = 1000%Z.
Proof. split; reflexivity. Qed.

(** ** Class ids in label lines *)

Lemma take_token_uint (d : uint) (rest : string) :
  take_token (NilEmpty.string_of_uint d +:+ String " " rest)
  = NilEmpty.string_of_uint d.
Proof. induction d; simpl; [reflexivity| f_equal; exact IHd ..]. Qed.

Lemma first_token_int (d : int) (rest : string) :
  d <> Pos Nil ->
  first_token (NilEmpty.string_of_int d +:+ " " +:+ rest)
  = Some (NilEmpty.string_of_int d).
Proof.
  intros Hd. change (" " +:+ rest) with (String " " rest). unfold first_token.
  destruct d as [u|u]; simpl.
  - destruct u; [congruence| simpl; rewrite take_token_uint; reflexivity ..].
  - rewrite take_token_uint. reflexivity.
Qed.

Lemma to_int_nonnil (z : Z) : Z.to_int z <> Pos Nil.
Proof.
  destruct z; simpl; [discriminate | | discriminate].
  intros [= H]. exact (DecimalPos.Unsigned.to_uint_nonnil _ H).
Qed.

Lemma int_of_token_format (z : Z) : int_of_token (format_int z) = Some z.
Proof.
  unfold int_of_token, format_int.
  destruct (NilEmpty.string_of_int (Z.to_int z)) eqn:E.
  - exfalso. pose proof (to_int_nonnil z) as Hn.
    destruct (Z.to_int z) as [u|u]; simpl in E; [|discriminate].
    destruct u; simpl in E; try discriminate. congruence.
  - rewrite <- E, NilEmpty.isi. simpl. now rewrite DecimalZ.of_to.
Qed.

Lemma line_class_yolo_line (f : Fused) : line_class (yolo_line f) = Some (snd f).
Proof.
  destruct f as [[mb s] label]. unfold line_class, yolo_line.
  destruct (yolo_values mb) as [[[xc yc] w] h]. unfold format_int at 1.
  rewrite first_token_int by apply to_int_nonnil. simpl.
  apply int_of_token_format.
Qed.

Lemma class_counts_of_fused iou_thr finding_df cls :
  class_counts_of (yolo_labels_of iou_thr finding_df) cls =
  count_label cls (concat (map snd (fused_labels iou_thr finding_df))).
Proof.
  unfold class_counts_of, yolo_labels_of, count_label.
  induction (fused_labels iou_thr finding_df) as [|[img fs] l IH]; [reflexivity|].
  simpl. rewrite !List.filter_app, !length_app, IH. f_equal.
  clear IH. induction fs as [|f fs IH]; [reflexivity|].
  simpl. rewrite line_class_yolo_line.
  destruct (snd f =? cls)%Z eqn:E.
  - apply Z.eqb_eq in E. rewrite bool_decide_eq_true_2 by congruence.
    simpl. now rewrite IH.
  - apply Z.eqb_neq in E. rewrite bool_decide_eq_false_2 by congruence.
    exact IH.
Qed.

(** ** Manifest and statistics *)

Section ManifestProps.
Context {Rng : Type}.
Variable rng_seed : Z -> Rng.
Variable randbelow : Rng -> nat -> nat * Rng.
Variable set_order : gset string -> list string.
Variable resolve_posix : string -> string.

Local Abbreviation run := (convert_dataset rng_seed randbelow set_order resolve_posix).

Lemma run_files df fs images_dir output_dir val_split iou_thr ratio seed :
  exists written,
    files (run df fs images_dir output_dir val_split iou_thr ratio seed)
    = <[path_join output_dir "dataset.yaml" := yaml_content resolve_posix output_dir]>
        written.
Proof. eexists. reflexivity. Qed.

Lemma run_manifest df fs images_dir output_dir val_split iou_thr ratio seed :
  files (run df fs images_dir output_dir val_split iou_thr ratio seed)
    !! path_join output_dir "dataset.yaml"
  = Some (yaml_content resolve_posix output_dir).
Proof.
  destruct (run_files df fs images_dir output_dir val_split iou_thr ratio seed)
    as [written ->].
  apply lookup_insert_eq.
Qed.

(** [yolo_labels] of a run holds the lines of the fused entries. *)
Lemma run_yolo_labels df fs images_dir output_dir val_split iou_thr ratio seed :
  yolo_labels (run df fs images_dir output_dir val_split iou_thr ratio seed)
  = map (fun entry => (fst entry, map yolo_line (snd entry)))
        (fused_labels iou_thr
           (List.filter has_bbox (List.filter is_finding_row df))).
Proof.
  change (yolo_labels (run df fs images_dir output_dir val_split iou_thr ratio seed))
    with (yolo_labels_of iou_thr
            (List.filter has_bbox (List.filter is_finding_row df))).
  unfold yolo_labels_of. apply map_ext. intros [img fused]. reflexivity.
Qed.

Lemma run_class_stats df fs images_dir output_dir val_split iou_thr ratio seed :
  class_stats (run df fs images_dir output_dir val_split iou_thr ratio seed)
  = map (fun i => class_counts_of
                    (yolo_labels_of iou_thr
                       (List.filter has_bbox (List.filter is_finding_row df)))
                    (Z.of_nat i))
        (seq 0 NUM_CLASSES).
Proof. reflexivity. Qed.

(** C9, as the code has it.  The manifest written by a run is the text of
    [yaml_content]: the ordered class names with their number and the two
    split paths, the same for every input that shares the output
    directory, so it holds no per-class box counts.  The per-class counts
    of a run are those of the in-memory fusion state, whatever the
    storage holds. *)
Theorem C9_manifest_and_statistics df fs images_dir output_dir val_split iou_thr ratio seed :
  let r := run df fs images_dir output_dir val_split iou_thr ratio seed in
  files r !! path_join output_dir "dataset.yaml"
    = Some (yaml_content resolve_posix output_dir) /\
  (forall df' fs' images_dir' val_split' iou_thr' ratio' seed',
     files (run df' fs' images_dir' output_dir val_split' iou_thr' ratio' seed')
       !! path_join output_dir "dataset.yaml"
     = files r !! path_join output_dir "dataset.yaml") /\
  class_stats r = fused_class_counts iou_thr df /\
  (forall fs' images_dir',
     class_stats (run df fs' images_dir' output_dir val_split iou_thr ratio seed)
     = class_stats r).
Proof.
  cbv zeta. split; [apply run_manifest|].
  split; [intros; now rewrite !run_manifest|].
  split; [|intros; now rewrite !run_class_stats].
  rewrite run_class_stats. unfold fused_class_counts. apply map_ext. intros i.
  apply class_counts_of_fused.
Qed.
End ManifestProps.

(** The statistics of a run are not those of a scan of the written
    label files: when the image of [f1] is missing from storage its label
    file is not written, and the run still counts its box.  The manifest
    of that run is the one of a run on an empty table. *)
Lemma C9_counts_not_rescanned :
  let r := demo_convert order_a demo_df demo_fs_missing "in" "out" (15#100) (1#2) 1 42 in
  class_stats r <> scanned_class_counts (files r) "out" /\
  nth 3 (class_stats r) 0%nat = 1%nat /\
  nth 3 (scanned_class_counts (files r) "out") 0%nat = 0%nat /\
  files r !! "out/dataset.yaml"
  = files (demo_convert order_a [] demo_fs_missing "in" "out" (15#100) (1#2) 1 42)
      !! "out/dataset.yaml".
Proof.
  set (r := demo_convert order_a demo_df demo_fs_missing "in" "out" (15#100) (1#2) 1 42).
  assert (H1 : nth 3 (class_stats r) 0%nat = 1%nat) by (vm_compute; reflexivity).
  assert (H2 : nth 3 (scanned_class_counts (files r) "out") 0%nat = 0%nat)
    by (vm_compute; reflexivity).
  assert (H3 : files r !! "out/dataset.yaml"
    = files (demo_convert order_a [] demo_fs_missing "in" "out" (15#100) (1#2) 1 42)
        !! "out/dataset.yaml") by (vm_compute; reflexivity).
  clearbody r. cbv zeta.
  split; [|split; [exact H1|split; [exact H2|exact H3]]].
  intros Heq. rewrite Heq in H1. rewrite H1 in H2. discriminate H2.
Qed.

(** ** Runs under two iteration orders of a set *)

Lemma demo_labels :
  yolo_labels_of (1#2) (List.filter has_bbox (List.filter is_finding_row demo_df))
  = [("f1", ["3 0.207500 0.200000 0.195000 0.190000"])]%string.
Proof. vm_compute. reflexivity. Qed.

Lemma demo_pure_a :
  order_a (list_to_set (pd_unique (map image_id
             (List.filter (fun r => negb (is_finding_row r)) demo_df)))
           ∖ list_to_set (pd_unique (map image_id
               (List.filter is_finding_row demo_df))))
  = ["a"; "b"]%string.
Proof. vm_compute. reflexivity. Qed.

Lemma demo_pure_b :
  order_b (list_to_set (pd_unique (map image_id
             (List.filter (fun r => negb (is_finding_row r)) demo_df)))
           ∖ list_to_set (pd_unique (map image_id
               (List.filter is_finding_row demo_df))))
  = ["b"; "a"]%string.
Proof. vm_compute. reflexivity. Qed.

Section SetOrder.
Context {Rng : Type}.
Variable rng_seed : Z -> Rng.
Variable randbelow : Rng -> nat -> nat * Rng.
Variable resolve_posix : string -> string.

Lemma shuffle_one {A} (x : A) (g : Rng) : shuffle randbelow [x] g = ([x], g).
Proof. reflexivity. Qed.

Lemma shuffle_two {A} (x y : A) (g : Rng) :
  fst (shuffle randbelow [x; y] g)
  = if Nat.eqb (fst (randbelow g 2)) 0 then [y; x] else [x; y].
Proof.
  unfold shuffle. simpl. destruct (randbelow g 2) as [[|[|j]] g']; reflexivity.
Qed.

(** C2, at a failing input.  A table with one finding image and two
    background images, the same storage and the same seed, whatever the
    generator: under two iteration orders of the set of background ids
    the label lines and the split of the finding image agree, but the
    selected background image, the train set and the written files
    differ. *)
Theorem C2_split_depends_on_set_order (seed : Z) :
  let r_a := convert_dataset rng_seed randbelow order_a resolve_posix
               demo_df demo_fs "in" "out" (15#100) (1#2) 1 seed in
  let r_b := convert_dataset rng_seed randbelow order_b resolve_posix
               demo_df demo_fs "in" "out" (15#100) (1#2) 1 seed in
  yolo_labels r_a = yolo_labels r_b /\
  pure_no_finding r_a = pure_no_finding r_b /\
  train_findings r_a = train_findings r_b /\
  val_findings r_a = val_findings r_b /\
  selected_no_finding r_a <> selected_no_finding r_b /\
  train_images r_a <> train_images r_b /\
  files r_a <> files r_b.
Proof.
  cbv zeta. unfold convert_dataset. cbv zeta.
  rewrite demo_labels. cbn [map fst]. rewrite !shuffle_one. cbn [fst snd].
  rewrite demo_pure_a, demo_pure_b, !shuffle_two.
  cbn [yolo_labels pure_no_finding train_findings val_findings
       selected_no_finding train_images files].
  split; [reflexivity|]. split; [reflexivity|].
  split; [reflexivity|]. split; [reflexivity|].
  destruct (Nat.eqb (fst (randbelow (rng_seed seed) 2)) 0).
  - split; [intros Heq; vm_compute in Heq; discriminate Heq|].
    split; intros Heq.
    + apply (f_equal elements) in Heq. vm_compute in Heq. discriminate Heq.
    + apply (f_equal (fun m => m !! "out/labels/train/b.txt")) in Heq.
      vm_compute in Heq. discriminate Heq.
  - split; [intros Heq; vm_compute in Heq; discriminate Heq|].
    split; intros Heq.
    + apply (f_equal elements) in Heq. vm_compute in Heq. discriminate Heq.
    + apply (f_equal (fun m => m !! "out/labels/train/b.txt")) in Heq.
      vm_compute in Heq. discriminate Heq.
Qed.
End SetOrder.

(** The same two runs with the small generator of the fixtures. *)
Example set_order_demo :
  selected_no_finding
    (demo_convert order_a demo_df demo_fs "in" "out" (15#100) (1#2) 1 42)
  = ["b"%string] /\
  selected_no_finding
    (demo_convert order_b demo_df demo_fs "in" "out" (15#100) (1#2) 1 42)
  = ["a"%string].
Proof. split; vm_compute; reflexivity. Qed.

(** * Further properties of the code *)

(** ** IoU of boxes apart, nested, and equal *)

Lemma inter_area_apart a b : apart a b -> inter_area a b == 0.
Proof.
  intros Hap. unfold inter_area.
  destruct (py_min_spec (bx2 a) (bx2 b)) as [[H1 ->]|[H1 ->]];
  destruct (py_max_spec (bx1 a) (bx1 b)) as [[H2 ->]|[H2 ->]];
  destruct (py_min_spec (by2 a) (by2 b)) as [[H3 ->]|[H3 ->]];
  destruct (py_max_spec (by1 a) (by1 b)) as [[H4 ->]|[H4 ->]];
  match goal with |- py_max 0 ?s * py_max 0 ?t == 0 =>
    destruct (py_max_spec 0 s) as [[H5 ->]|[H5 ->]];
    destruct (py_max_spec 0 t) as [[H6 ->]|[H6 ->]] end;
  try (ring_simplify; reflexivity);
  exfalso; unfold apart in Hap; lra.
Qed.


(** X1. Boxes that do not overlap have IoU 0. *)
Theorem X1_iou_apart (a b : Box) : apart a b -> _iou a b == 0.
Proof.
  intros Hap. rewrite _iou_unfold. pose proof (inter_area_apart a b Hap) as Hz.
  destruct (Qlt_bool 0 _) eqn:E; [|reflexivity].
  apply Qlt_bool_iff in E. rewrite Hz at 1. field. lra.
Qed.

Lemma X1_iou_apart_witness :
  apart small_box (mkBox (1#2) (1#2) 1 1) /\
  _iou small_box (mkBox (1#2) (1#2) 1 1) == 0.
Proof.
  assert (H : apart small_box (mkBox (1#2) (1#2) 1 1)) by (left; discriminate).
  split; [exact H | apply (X1_iou_apart _ _ H)].
Defined.







(** ** Clusters: partition, thresholds at the ends of the range *)

(** X4. Clustering loses and duplicates nothing: for every label, the
    members of the clusters the fusion forms are, together, exactly the
    pooled boxes of that label. *)
Theorem X4_clusters_partition boxes_list scores_list labels_list iou_thr skip_box_thr label :
  concat (label_clusters boxes_list scores_list labels_list iou_thr skip_box_thr label)
  ≡ₚ select_label label (pool boxes_list scores_list labels_list skip_box_thr).
Proof.
  unfold label_clusters. rewrite clusters_of_seed_anchored.
  apply seed_anchored_perm.
Qed.

Lemma filter_none {A} (p : A -> bool) (l : list A) :
  (forall x, x ∈ l -> p x = false) -> List.filter p l = [].
Proof.
  induction l as [|x l IH]; intros H; simpl; [reflexivity|].
  rewrite (H x) by left. apply IH. intros y Hy. apply H. now right.
Qed.

Lemma filter_all {A} (p : A -> bool) (l : list A) :
  (forall x, x ∈ l -> p x = true) -> List.filter p l = l.
Proof.
  induction l as [|x l IH]; intros H; simpl; [reflexivity|].
  rewrite (H x) by left. f_equal. apply IH. intros y Hy. apply H. now right.
Qed.

Lemma joins_high iou_thr a b : 1 <= iou_thr -> joins iou_thr a b = false.
Proof.
  intros Ht. unfold joins. apply Qlt_bool_false.
  pose proof (_iou_range (fst a) (fst b)). lra.
Qed.

Lemma joins_low iou_thr a b : iou_thr < 0 -> joins iou_thr a b = true.
Proof.
  intros Ht. unfold joins. apply Qlt_bool_iff.
  pose proof (_iou_range (fst a) (fst b)). lra.
Qed.

Lemma seed_anchored_singletons iou_thr l :
  1 <= iou_thr -> seed_anchored iou_thr l = map (fun m => [m]) l.
Proof.
  intros Ht. induction l as [|m l IH]; simp seed_anchored; [reflexivity|].
  rewrite filter_none by (intros; apply joins_high, Ht).
  rewrite filter_all by (intros; rewrite joins_high by exact Ht; reflexivity).
  simpl. now rewrite IH.
Qed.

Lemma seed_anchored_one iou_thr seed rest :
  (forall m, m ∈ rest -> joins iou_thr seed m = true) ->
  seed_anchored iou_thr (seed :: rest) = [seed :: rest].
Proof.
  intros Hj. simp seed_anchored.
  rewrite filter_all by exact Hj.
  rewrite filter_none by (intros m Hm; rewrite (Hj m Hm); reflexivity).
  simp seed_anchored. reflexivity.
Qed.

Lemma weighted_mean_const (f : Box -> Q) (v : Q) (c : list (Box * Q)) :
  c <> [] -> Forall (fun m => 0 < snd m) c ->
  Forall (fun m => f (fst m) == v) c ->
  weighted_mean f c == v.
Proof.
  intros Hne Hpos Hv.
  assert (Htot : 0 < Qsum (map snd c)).
  { apply Qsum_pos; [destruct c; [congruence | discriminate]|].
    apply Forall_map. exact Hpos. }
  assert (Hw1 : Qsum (cluster_weights c) == 1) by (apply cluster_weights_sum; lra).
  pose proof (weighted_between f v v c (cluster_weights c)) as Hb.
  rewrite Hw1, !Qmult_1_r in Hb.
  assert (H : v <= weighted_mean f c <= v).
  { apply Hb.
    - eapply Forall_impl; [exact Hv|]. simpl. intros m Hm. lra.
    - unfold cluster_weights. apply Forall_map.
      eapply Forall_impl; [exact Hpos|]. simpl. intros m Hm.
      apply Qle_shift_div_l; lra.
    - unfold cluster_weights. now rewrite length_map. }
  lra.
Qed.

(** A cluster whose members all carry the box [b] is fused into [b]. *)
Lemma fuse_cluster_same_box (b : Box) (c : list (Box * Q)) (label : Z) :
  c <> [] -> Forall (fun m => 0 < snd m) c ->
  Forall (fun m => Box_eq (fst m) b) c ->
  exists box s,
    fuse_cluster c label = (Some box, s, label) /\ Box_eq box b /\
    s == Qsum (map snd c) / inject_Z (Z.of_nat (length c)).
Proof.
  intros Hne Hpos Hsame.
  destruct (fuse_cluster_positive c label Hne Hpos) as (_ & box & Hf & Hbox).
  exists box, (Qsum (map snd c) / inject_Z (Z.of_nat (length (map snd c)))).
  split; [exact Hf|]. split; [|rewrite length_map; reflexivity].
  unfold coords in Hbox.
  apply Forall_cons in Hbox. destruct Hbox as [[H1 _] Hbox].
  apply Forall_cons in Hbox. destruct Hbox as [[H2 _] Hbox].
  apply Forall_cons in Hbox. destruct Hbox as [[H3 _] Hbox].
  apply Forall_cons in Hbox. destruct Hbox as [[H4 _] _].
  unfold Box_eq.
  rewrite H1, H2, H3, H4.
  repeat split; apply weighted_mean_const; try assumption;
    (eapply Forall_impl; [exact Hsame|]); simpl; intros m Hm; apply Hm.
Qed.

(** X5. With a threshold of 1 or more nothing is merged: for every label
    the fusion emits the pooled boxes of that label one by one, in pooled
    order, each with its own coordinates and its own score. *)
Theorem X5_no_merge_at_high_threshold boxes_list scores_list labels_list iou_thr skip_box_thr label :
  1 <= iou_thr -> 0 <= skip_box_thr ->
  Forall2 (fun e m => exists box,
             e = (Some box, snd (fst e), label) /\
             Box_eq box (fst m) /\ snd (fst e) == snd m)
    (fuse_label (pool boxes_list scores_list labels_list skip_box_thr) iou_thr label)
    (select_label label (pool boxes_list scores_list labels_list skip_box_thr)).
Proof.
  intros Ht Hs. rewrite fuse_label_clusters, clusters_of_seed_anchored.
  rewrite seed_anchored_singletons by exact Ht.
  set (items := select_label label _).
  assert (Hpos : Forall (fun m => 0 < snd m) items).
  { apply Forall_forall. intros [b s] Hin. unfold items in Hin.
    apply elem_of_select_label, elem_of_pool in Hin. simpl. lra. }
  clearbody items. induction Hpos as [|m items Hm Hpos IH]; simpl; constructor.
  - destruct (fuse_cluster_same_box (fst m) [m] label) as (box & s & Hf & Hb & Hsc).
    + discriminate.
    + repeat constructor. exact Hm.
    + repeat constructor; reflexivity.
    + exists box. rewrite Hf. simpl. split; [reflexivity|]. split; [exact Hb|].
      rewrite Hsc. simpl. field.
  - exact IH.
Qed.

Lemma X5_no_merge_at_high_threshold_witness :
  1 <= 1 /\ 0 <= 0 /\
  Forall2 (fun e m => exists box,
             e = (Some box, snd (fst e), 3%Z) /\
             Box_eq box (fst m) /\ snd (fst e) == snd m)
    (fuse_label (pool ex1_boxes ex1_scores ex1_labels 0) 1 3)
    (select_label 3 (pool ex1_boxes ex1_scores ex1_labels 0)).
Proof.
  assert (H1 : 1 <= 1) by apply Qle_refl.
  assert (H0 : 0 <= 0) by apply Qle_refl.
  split; [exact H1|]. split; [exact H0|].
  apply (X5_no_merge_at_high_threshold ex1_boxes ex1_scores ex1_labels 1 0 3 H1 H0).
Defined.

(** X6. With a negative threshold everything of one label is merged: the
    fusion forms exactly one cluster for a label with pooled boxes, made
    of all of them, and so emits exactly one entry for it. *)
Theorem X6_all_merge_at_negative_threshold boxes_list scores_list labels_list iou_thr skip_box_thr label :
  iou_thr < 0 ->
  let items := select_label label
                 (pool boxes_list scores_list labels_list skip_box_thr) in
  label_clusters boxes_list scores_list labels_list iou_thr skip_box_thr label
  = match items with [] => [] | _ => [items] end /\
  count_label label
    (weighted_boxes_fusion boxes_list scores_list labels_list iou_thr skip_box_thr)
  = match items with [] => 0%nat | _ => 1%nat end.
Proof.
  intros Ht. cbv zeta. rewrite count_label_fusion. unfold label_clusters.
  rewrite clusters_of_seed_anchored.
  destruct (select_label label _) as [|seed rest].
  - simp seed_anchored. split; reflexivity.
  - rewrite seed_anchored_one by (intros; apply joins_low, Ht).
    split; reflexivity.
Qed.

Lemma X6_all_merge_at_negative_threshold_witness :
  -(1) < 0 /\
  count_label 0
    (weighted_boxes_fusion chain_boxes chain_scores chain_labels (-(1)) 0)
  = 1%nat.
Proof.
  assert (Ht : -(1) < 0) by reflexivity.
  split; [exact Ht|].
  apply (X6_all_merge_at_negative_threshold chain_boxes chain_scores chain_labels
           (-(1)) 0 0 Ht).
Defined.

(** ** Agreement and order of the output *)




Lemma labels_of_fusion boxes_list scores_list labels_list iou_thr skip_box_thr :
  map snd (weighted_boxes_fusion boxes_list scores_list labels_list iou_thr skip_box_thr)
  = concat (map (fun label =>
                   replicate (length (label_clusters boxes_list scores_list
                                        labels_list iou_thr skip_box_thr label))
                             label)
                (np_unique (map snd
                   (pool boxes_list scores_list labels_list skip_box_thr)))).
Proof.
  rewrite weighted_boxes_fusion_clusters.
  generalize (np_unique (map snd
                (pool boxes_list scores_list labels_list skip_box_thr))) as ls.
  generalize (label_clusters boxes_list scores_list labels_list iou_thr
                skip_box_thr) as G.
  intros G ls. induction ls as [|l ls IH]; [reflexivity|].
  cbn [map concat]. rewrite List.map_app. f_equal; [|exact IH].
  induction (G l) as [|c cs IHc]; [reflexivity|].
  cbn [map length replicate]. now rewrite IHc.
Qed.

Lemma sorted_blocks (size : Z -> nat) (ls : list Z) :
  StronglySorted Z.lt ls ->
  StronglySorted Z.le (concat (map (fun l => replicate (size l) l) ls)).
Proof.
  induction 1 as [|l ls Hs IH Hl]; simpl; [constructor|].
  induction (size l) as [|n IHn]; simpl; [exact IH|].
  constructor; [exact IHn|].
  apply Forall_app. split.
  - apply Forall_forall. intros x Hx. apply elem_of_replicate in Hx.
    destruct Hx as [-> _]. lia.
  - apply Forall_forall. intros x Hx.
    apply list_elem_of_In, in_concat in Hx. destruct Hx as (blk & Hblk & Hx).
    apply in_map_iff in Hblk. destruct Hblk as (l' & <- & Hl').
    apply list_elem_of_In, elem_of_replicate in Hx. destruct Hx as [-> _].
    rewrite Forall_forall in Hl. apply list_elem_of_In, Hl in Hl'. lia.
Qed.

(** X8. The fusion returns its entries grouped by label, in ascending
    order of the labels. *)
Theorem X8_output_sorted_by_label boxes_list scores_list labels_list iou_thr skip_box_thr :
  StronglySorted Z.le
    (map snd (weighted_boxes_fusion boxes_list scores_list labels_list
                                    iou_thr skip_box_thr)).
Proof.
  rewrite labels_of_fusion. apply sorted_blocks, np_unique_sorted.
Qed.

(** ** Grouping rows: [defaultdict(list)] and the size dictionary *)

Lemma pd_unique_snoc (l : list string) (x : string) :
  pd_unique (l ++ [x]) =
  if bool_decide (x ∈ pd_unique l) then pd_unique l else pd_unique l ++ [x].
Proof. unfold pd_unique. rewrite fold_left_app. reflexivity. Qed.

Lemma pd_unique_NoDup (l : list string) : NoDup (pd_unique l).
Proof.
  induction l as [|x l IH] using rev_ind; [constructor|].
  rewrite pd_unique_snoc. destruct (bool_decide _) eqn:E; [exact IH|].
  apply bool_decide_eq_false_1 in E.
  apply NoDup_app. split; [exact IH|]. split; [|apply NoDup_singleton].
  intros y Hy Hy'. apply list_elem_of_singleton in Hy'. subst y. contradiction.
Qed.

Lemma group_by_snoc {V} (key : V -> string) (rows : list V) (r : V) :
  group_by key (rows ++ [r]) = alist_append (key r) r (group_by key rows).
Proof. unfold group_by. rewrite fold_left_app. reflexivity. Qed.

Lemma rows_with_snoc {V} (key : V -> string) (k : string) (rows : list V) (r : V) :
  rows_with key k (rows ++ [r]) =
  rows_with key k rows ++ (if bool_decide (key r = k) then [r] else []).
Proof. unfold rows_with. rewrite List.filter_app. reflexivity. Qed.

Lemma rows_with_absent {V} (key : V -> string) (k : string) (rows : list V) :
  k ∉ map key rows -> rows_with key k rows = [].
Proof.
  intros Hni. unfold rows_with. apply filter_none. intros r Hr.
  apply bool_decide_eq_false_2. intros <-. apply Hni.
  apply list_elem_of_fmap. exists r. auto.
Qed.

Lemma alist_append_map {V} (F : string -> list V) (ks : list string) (k : string) (v : V) :
  NoDup ks ->
  alist_append k v (map (fun k' => (k', F k')) ks) =
  if bool_decide (k ∈ ks)
  then map (fun k' => (k', F k' ++ (if bool_decide (k = k') then [v] else []))) ks
  else map (fun k' => (k', F k')) ks ++ [(k, [v])].
Proof.
  induction 1 as [|k' ks Hni Hnd IH]; [reflexivity|].
  cbn [map alist_append].
  destruct (bool_decide (k = k')) eqn:E.
  - apply bool_decide_eq_true_1 in E. subst k'.
    rewrite bool_decide_eq_true_2 by left. f_equal.
    apply map_ext_in. intros k'' Hk''.
    rewrite bool_decide_eq_false_2; [now rewrite app_nil_r|].
    intros ->. apply Hni, list_elem_of_In, Hk''.
  - apply bool_decide_eq_false_1 in E. rewrite IH, app_nil_r.
    destruct (bool_decide (k ∈ ks)) eqn:Ek.
    + apply bool_decide_eq_true_1 in Ek.
      rewrite bool_decide_eq_true_2 by (right; exact Ek). reflexivity.
    + apply bool_decide_eq_false_1 in Ek.
      rewrite bool_decide_eq_false_2; [reflexivity|].
      rewrite elem_of_cons. tauto.
Qed.

Lemma group_by_spec {V} (key : V -> string) (rows : list V) :
  group_by key rows =
  map (fun k => (k, rows_with key k rows)) (pd_unique (map key rows)).
Proof.
  induction rows as [|r rows IH] using rev_ind; [reflexivity|].
  rewrite group_by_snoc, IH, alist_append_map by apply pd_unique_NoDup.
  rewrite List.map_app. cbn [map]. rewrite pd_unique_snoc.
  destruct (bool_decide (key r ∈ pd_unique (map key rows))) eqn:E.
  - apply map_ext. intros k. now rewrite rows_with_snoc.
  - apply bool_decide_eq_false_1 in E. rewrite elem_of_pd_unique in E.
    rewrite List.map_app. cbn [map]. f_equal.
    + apply map_ext_in. intros k Hk. rewrite rows_with_snoc.
      rewrite bool_decide_eq_false_2; [now rewrite app_nil_r|].
      intros Heq. apply E. rewrite Heq.
      apply elem_of_pd_unique, list_elem_of_In, Hk.
    + rewrite rows_with_snoc, rows_with_absent by exact E.
      rewrite bool_decide_eq_true_2 by reflexivity. reflexivity.
Qed.

(** X9. Grouping by a key keeps every row: the keys of the dictionary
    are the distinct key values in order of first appearance, and the
    list under a key holds exactly the rows with that key, in their
    original order. *)
Theorem X9_group_by_groups {V} (key : V -> string) (rows : list V) :
  group_by key rows =
  map (fun k => (k, rows_with key k rows)) (pd_unique (map key rows)).
Proof. apply group_by_spec. Qed.

Lemma display_sizes_snoc (rows : list Row) (r : Row) :
  display_sizes (rows ++ [r]) =
  <[image_id r := display_size r]> (display_sizes rows).
Proof. unfold display_sizes. rewrite fold_left_app. reflexivity. Qed.

(** X10. The size recorded for an image is the one computed from its
    last row; an image without rows has no size. *)
Theorem X10_display_size_of_last_row (finding_df : list Row) (img_id : string) :
  display_sizes finding_df !! img_id =
  display_size <$> last (rows_with image_id img_id finding_df).
Proof.
  induction finding_df as [|r rows IH] using rev_ind; [reflexivity|].
  rewrite display_sizes_snoc, rows_with_snoc.
  destruct (bool_decide (image_id r = img_id)) eqn:E.
  - apply bool_decide_eq_true_1 in E. rewrite E, lookup_insert_eq, last_snoc.
    reflexivity.
  - apply bool_decide_eq_false_1 in E.
    rewrite lookup_insert_ne by exact E. rewrite app_nil_r. exact IH.
Qed.

Lemma group_by_member {V} (key : V -> string) (rows : list V) k rs :
  (k, rs) ∈ group_by key rows ->
  rs = rows_with key k rows /\ k ∈ map key rows /\
  Forall (fun r => r ∈ rows /\ key r = k) rs.
Proof.
  rewrite group_by_spec. intros Hin. apply list_elem_of_fmap in Hin.
  destruct Hin as (k' & [= <- ->] & Hk). rewrite elem_of_pd_unique in Hk.
  split; [reflexivity|]. split; [exact Hk|].
  apply Forall_forall. intros r Hr. unfold rows_with in Hr.
  apply list_elem_of_In, filter_In in Hr. destruct Hr as [Hr Hkey].
  apply bool_decide_eq_true_1 in Hkey. split; [apply list_elem_of_In, Hr | exact Hkey].
Qed.

(** ** What reaches the fusion, and what leaves it, for one image *)

Lemma clamp01_range (x : Q) : 0 <= clamp01 x <= 1.
Proof.
  unfold clamp01.
  destruct (py_min_spec 1 x) as [[H1 ->]|[H1 ->]];
  match goal with |- context [py_max 0 ?t] =>
    destruct (py_max_spec 0 t) as [[H2 ->]|[H2 ->]] end; lra.
Qed.


Lemma rad_entry_good disp_w disp_h r b s l :
  rad_entry disp_w disp_h r = Some (b, s, l) ->
  valid_box b /\ in_unit_square b /\ s = 1 /\ l = class_id r.
Proof.
  unfold rad_entry.
  destruct (Qle_bool _ _ || Qle_bool _ _) eqn:E; [discriminate|].
  intros [= <- <- <-]. apply orb_false_elim in E. destruct E as [Ex Ey].
  unfold valid_box, in_unit_square. simpl.
  pose proof (clamp01_range (cell (x_min r) / disp_w)).
  pose proof (clamp01_range (cell (y_min r) / disp_h)).
  pose proof (clamp01_range (cell (x_max r) / disp_w)).
  pose proof (clamp01_range (cell (y_max r) / disp_h)).
  assert (Hx : ~ clamp01 (cell (x_max r) / disp_w) <= clamp01 (cell (x_min r) / disp_w)).
  { intros Hle. apply Qle_bool_iff in Hle. congruence. }
  assert (Hy : ~ clamp01 (cell (y_max r) / disp_h) <= clamp01 (cell (y_min r) / disp_h)).
  { intros Hle. apply Qle_bool_iff in Hle. congruence. }
  repeat split; lra.
Qed.

Lemma fusion_input_entries disp_w disp_h rows :
  exists per_rad : list (list (Box * Q * Z)),
    fusion_input disp_w disp_h rows =
      (map (map (fun e => fst (fst e))) per_rad,
       map (map (fun e => snd (fst e))) per_rad,
       map (map snd) per_rad) /\
    Forall (fun es => es <> [] /\
              Forall (fun e => valid_box (fst (fst e)) /\
                               in_unit_square (fst (fst e)) /\
                               snd (fst e) = 1 /\
                               exists r, r ∈ rows /\ class_id r = snd e) es)
           per_rad.
Proof.
  unfold fusion_input. eexists. split; [reflexivity|].
  apply Forall_forall. intros es Hes.
  apply list_elem_of_In, filter_In in Hes. destruct Hes as [Hes Hne].
  split; [destruct es; [discriminate | discriminate]|].
  apply in_map_iff in Hes. destruct Hes as ([rad rad_rows] & <- & Hgrp).
  apply list_elem_of_In, group_by_member in Hgrp. destruct Hgrp as (_ & _ & Hrows).
  apply Forall_forall. intros [[b s] l] He.
  unfold rad_entries in He. apply list_elem_of_omap in He.
  destruct He as (r & Hr & Hsome).
  destruct (rad_entry_good _ _ _ _ _ _ Hsome) as (Hv & Hu & Hs & Hl).
  simpl. split; [exact Hv|]. split; [exact Hu|]. split; [exact Hs|].
  exists r. rewrite Forall_forall in Hrows. split; [apply Hrows, Hr | auto].
Qed.

(** X11. What the aggregation hands to the fusion for one image, from
    rows that all have a bounding box: one non-empty array per
    radiologist, boxes, scores and labels of equal length; every box is
    valid and lies in the unit square, every score is 1, and every label
    is the class of one of the rows. *)
Theorem X11_fusion_input_well_formed disp_w disp_h (rows : list Row) :
  Forall (fun r => has_bbox r = true) rows ->
  let boxes_list := fst (fst (fusion_input disp_w disp_h rows)) in
  let scores_list := snd (fst (fusion_input disp_w disp_h rows)) in
  let labels_list := snd (fusion_input disp_w disp_h rows) in
  Forall (fun boxes => boxes <> [] /\
            Forall (fun b => valid_box b /\ in_unit_square b) boxes) boxes_list /\
  Forall2 (fun boxes scores => length boxes = length scores) boxes_list scores_list /\
  Forall2 (fun boxes labels => length boxes = length labels) boxes_list labels_list /\
  Forall (Forall (fun s => s = 1)) scores_list /\
  Forall (Forall (fun l => exists r, r ∈ rows /\ class_id r = l)) labels_list.
Proof.
  intros _.
  cbv zeta. destruct (fusion_input_entries disp_w disp_h rows) as (per_rad & -> & Hall).
  cbn [fst snd]. induction Hall as [|es per_rad [Hne Hes] Hall IH].
  - repeat split; constructor.
  - destruct IH as (I1 & I2 & I3 & I4 & I5). cbn [map].
    split; [|split; [|split; [|split]]]; constructor; try assumption.
    + split; [destruct es; [congruence | discriminate]|].
      apply Forall_map. eapply Forall_impl; [exact Hes|]. simpl. tauto.
    + now rewrite !length_map.
    + now rewrite !length_map.
    + apply Forall_map. eapply Forall_impl; [exact Hes|]. simpl. tauto.
    + apply Forall_map. eapply Forall_impl; [exact Hes|]. simpl. tauto.
Qed.

Lemma pool_source boxes_list scores_list labels_list skip_box_thr b s l :
  (b, s, l) ∈ pool boxes_list scores_list labels_list skip_box_thr ->
  (exists bs, bs ∈ boxes_list /\ b ∈ bs) /\
  (exists ls, ls ∈ labels_list /\ l ∈ ls).
Proof.
  unfold pool. intros Hin. apply list_elem_of_In, in_concat in Hin.
  destruct Hin as (grp & Hgrp & Hin).
  apply in_map_iff in Hgrp. destruct Hgrp as ([[bs ss] ls] & <- & Hz).
  apply filter_In in Hin. destruct Hin as [Hin _].
  apply list_elem_of_In in Hz, Hin. unfold zip3 in Hz, Hin. split.
  - exists bs. split.
    + apply elem_of_zip_l in Hz. apply elem_of_zip_l in Hz. exact Hz.
    + apply elem_of_zip_l in Hin. apply elem_of_zip_l in Hin. exact Hin.
  - exists ls. split.
    + apply elem_of_zip_r in Hz. exact Hz.
    + apply elem_of_zip_r in Hin. exact Hin.
Qed.

Lemma zip_weights_lt (f g : Box -> Q) (c : list (Box * Q)) :
  Forall (fun m => f (fst m) < g (fst m)) c ->
  forall ws, Forall (fun w => 0 < w) ws -> length ws = length c ->
  Qsum (zip_with (fun m w => w * f (fst m)) c ws)
  <= Qsum (zip_with (fun m w => w * g (fst m)) c ws) /\
  (c <> [] ->
   Qsum (zip_with (fun m w => w * f (fst m)) c ws)
   < Qsum (zip_with (fun m w => w * g (fst m)) c ws)).
Proof.
  induction 1 as [|m c Hm Hc IH]; intros ws Hw Hlen.
  - destruct ws; [|discriminate]. simpl. split; [lra | congruence].
  - destruct ws as [|w ws]; [discriminate|]. simpl in *.
    apply Forall_cons in Hw. destruct Hw as [Hw0 Hw].
    destruct (IH ws Hw ltac:(lia)) as [IHle _].
    split; [|intros _]; nra.
Qed.

Lemma coord_min_ge (f : Box -> Q) (lo : Q) (c : list (Box * Q)) :
  c <> [] -> Forall (fun m => lo <= f (fst m)) c -> lo <= coord_min f c.
Proof.
  intros Hne Hall. destruct c as [|m0 r]; [congruence|].
  apply Forall_cons in Hall. destruct Hall as [H0 Hr]. unfold coord_min.
  clear Hne. induction Hr as [|m r Hm Hr IH]; simpl; [exact H0|].
  apply Q.min_glb; assumption.
Qed.

Lemma coord_max_le (f : Box -> Q) (hi : Q) (c : list (Box * Q)) :
  c <> [] -> Forall (fun m => f (fst m) <= hi) c -> coord_max f c <= hi.
Proof.
  intros Hne Hall. destruct c as [|m0 r]; [congruence|].
  apply Forall_cons in Hall. destruct Hall as [H0 Hr]. unfold coord_max.
  clear Hne. induction Hr as [|m r Hm Hr IH]; simpl; [exact H0|].
  apply Q.max_lub; assumption.
Qed.

(** A cluster of valid boxes of the unit square with positive scores is
    fused into a valid box of the unit square. *)
Lemma fuse_cluster_good (c : list (Box * Q)) (label : Z) :
  c <> [] -> Forall (fun m => 0 < snd m) c ->
  Forall (fun m => valid_box (fst m) /\ in_unit_square (fst m)) c ->
  exists box s,
    fuse_cluster c label = (Some box, s, label) /\
    valid_box box /\ in_unit_square box.
Proof.
  intros Hne Hpos Hgood.
  destruct (fuse_cluster_positive c label Hne Hpos) as (_ & box & Hf & Hbox).
  exists box, (Qsum (map snd c) / inject_Z (Z.of_nat (length (map snd c)))).
  split; [exact Hf|].
  unfold coords in Hbox.
  apply Forall_cons in Hbox. destruct Hbox as [[E1 [L1 U1]] Hbox].
  apply Forall_cons in Hbox. destruct Hbox as [[E2 [L2 U2]] Hbox].
  apply Forall_cons in Hbox. destruct Hbox as [[E3 [L3 U3]] Hbox].
  apply Forall_cons in Hbox. destruct Hbox as [[E4 [L4 U4]] _].
  assert (Htot : 0 < Qsum (map snd c)).
  { apply Qsum_pos; [destruct c; [congruence | discriminate]|].
    apply Forall_map. exact Hpos. }
  assert (Hws : Forall (fun w => 0 < w) (cluster_weights c)).
  { unfold cluster_weights. apply Forall_map.
    eapply Forall_impl; [exact Hpos|]. simpl. intros m Hm.
    apply Qlt_shift_div_l; lra. }
  assert (Hlen : length (cluster_weights c) = length c)
    by (unfold cluster_weights; now rewrite length_map).
  split.
  - unfold valid_box. rewrite E1, E2, E3, E4. unfold weighted_mean. split.
    + apply (zip_weights_lt bx1 bx2 c); try assumption.
      eapply Forall_impl; [exact Hgood|]. simpl. intros m [[Hx _] _]. exact Hx.
    + apply (zip_weights_lt by1 by2 c); try assumption.
      eapply Forall_impl; [exact Hgood|]. simpl. intros m [[_ Hy] _]. exact Hy.
  - unfold in_unit_square.
    assert (B1 : 0 <= coord_min bx1 c).
    { apply coord_min_ge; [exact Hne|].
      eapply Forall_impl; [exact Hgood|]. simpl. intros m [_ (H & _)]. exact H. }
    assert (B2 : coord_max bx2 c <= 1).
    { apply coord_max_le; [exact Hne|].
      eapply Forall_impl; [exact Hgood|]. simpl. intros m [_ (_ & H & _)]. exact H. }
    assert (B3 : 0 <= coord_min by1 c).
    { apply coord_min_ge; [exact Hne|].
      eapply Forall_impl; [exact Hgood|]. simpl. intros m [_ (_ & _ & H & _)]. exact H. }
    assert (B4 : coord_max by2 c <= 1).
    { apply coord_max_le; [exact Hne|].
      eapply Forall_impl; [exact Hgood|]. simpl. intros m [_ (_ & _ & _ & H)]. exact H. }
    repeat split; lra.
Qed.

Lemma image_fusion_entries iou_thr disp rows fused :
  image_fusion iou_thr disp rows = Some fused ->
  Forall (fun e => exists box,
            fst (fst e) = Some box /\ valid_box box /\ in_unit_square box /\
            exists r, r ∈ rows /\ class_id r = snd e) fused.
Proof.
  unfold image_fusion.
  destruct (fusion_input_entries (fst disp) (snd disp) rows) as (per_rad & -> & Hall).
  destruct (Nat.eqb _ 0); [discriminate|]. intros [= <-].
  apply Forall_forall. intros e He.
  apply elem_of_fusion in He. destruct He as (c & Hc & He).
  unfold label_clusters in Hc. destruct (cluster_members _ _ _ Hc) as [Hne Hm].
  assert (Hfacts : Forall (fun m => 0 < snd m /\ valid_box (fst m) /\
                             in_unit_square (fst m) /\
                             exists r, r ∈ rows /\ class_id r = snd e) c).
  { eapply Forall_impl; [exact Hm|]. simpl. intros [b s] Hin.
    apply elem_of_select_label in Hin.
    pose proof (elem_of_pool _ _ _ _ _ _ _ Hin) as Hs.
    destruct (pool_source _ _ _ _ _ _ _ Hin) as [(bs & Hbs & Hb) (ls & Hls & Hl)].
    apply list_elem_of_fmap in Hbs. destruct Hbs as (es & -> & Hes).
    apply list_elem_of_fmap in Hb. destruct Hb as (eb & -> & Heb).
    apply list_elem_of_fmap in Hls. destruct Hls as (es' & -> & Hes').
    apply list_elem_of_fmap in Hl. destruct Hl as (el & Hel & Hel').
    rewrite Forall_forall in Hall.
    destruct (Hall es Hes) as [_ Hgood]. rewrite Forall_forall in Hgood.
    destruct (Hgood eb Heb) as (Hv & Hu & _ & _).
    destruct (Hall es' Hes') as [_ Hgood']. rewrite Forall_forall in Hgood'.
    destruct (Hgood' el Hel') as (_ & _ & _ & r & Hr & Hcls).
    simpl. split; [exact Hs|]. split; [exact Hv|]. split; [exact Hu|].
    exists r. split; [exact Hr | congruence]. }
  destruct (fuse_cluster_good c (snd e) Hne) as (box & s & Hf & Hv & Hu).
  - eapply Forall_impl; [exact Hfacts|]. simpl. tauto.
  - eapply Forall_impl; [exact Hfacts|]. simpl. tauto.
  - exists box. rewrite He, Hf. simpl. split; [reflexivity|].
    split; [exact Hv|]. split; [exact Hu|].
    destruct c as [|m c']; [congruence|].
    apply Forall_cons in Hfacts. destruct Hfacts as [(_ & _ & _ & Hr) _].
    rewrite Hf in He. rewrite He in Hr. exact Hr.
Qed.



(** X13. The fusion invents no class: every consensus box of an image
    carries the class of a row of that image that has a bounding box, and
    never the id 14 of "No finding". *)
Theorem X13_labels_come_from_rows (iou_thr : Q) (df : list Row) :
  Forall (fun entry =>
    Forall (fun e =>
              snd e <> 14%Z /\
              exists r, r ∈ df /\ image_id r = fst entry /\
                        class_id r = snd e /\ has_bbox r = true)
           (snd entry))
    (fused_labels iou_thr (List.filter has_bbox (List.filter is_finding_row df))).
Proof.
  apply Forall_forall. intros [img_id fused] Hin.
  apply elem_of_fused_labels in Hin. destruct Hin as (rows & Hrows & Hfus).
  apply group_by_member in Hrows. destruct Hrows as (_ & _ & Hrows).
  apply image_fusion_entries in Hfus. simpl.
  eapply Forall_impl; [exact Hfus|]. simpl.
  intros e (_ & _ & _ & _ & r & Hr & Hcls).
  rewrite Forall_forall in Hrows. destruct (Hrows r Hr) as [Hrdf Himg].
  apply list_elem_of_In, filter_In in Hrdf. destruct Hrdf as [Hrdf Hbb].
  apply filter_In in Hrdf. destruct Hrdf as [Hrdf Hfind].
  unfold is_finding_row in Hfind. apply negb_true_iff, Z.eqb_neq in Hfind.
  split; [congruence|]. exists r.
  split; [apply list_elem_of_In, Hrdf|]. auto.
Qed.

(** ** The populations of a run *)

Lemma materialize_one_counts labels images_dir output_dir split_name fs m c img :
  let st := materialize_one labels images_dir output_dir split_name (fs, m, c) img in
  (snd (fst st) + snd st = S (m + c))%nat.
Proof.
  cbv zeta. unfold materialize_one.
  destruct (fs !! path_join images_dir (img +:+ ".jpg")); [simpl; lia|].
  destruct (fs !! path_join images_dir (img +:+ ".png")); simpl; lia.
Qed.

Lemma materialize_ids_counts labels images_dir output_dir split_name ids :
  forall st,
  let st' := fold_left (materialize_one labels images_dir output_dir split_name) ids st in
  (snd (fst st') + snd st' = snd (fst st) + snd st + length ids)%nat.
Proof.
  induction ids as [|img ids IH]; intros [[fs m] c]; cbv zeta;
    cbn [fold_left fst snd length]; [lia|].
  specialize (IH (materialize_one labels images_dir output_dir split_name (fs, m, c) img)).
  cbv zeta in IH. rewrite IH.
  pose proof (materialize_one_counts labels images_dir output_dir split_name fs m c img) as H.
  cbv zeta in H. lia.
Qed.

Section RunProps.
Context {Rng : Type}.
Variable rng_seed : Z -> Rng.
Variable randbelow : Rng -> nat -> nat * Rng.
Variable set_order : gset string -> list string.
Variable resolve_posix : string -> string.

Local Abbreviation run := (convert_dataset rng_seed randbelow set_order resolve_posix).

Lemma run_pure_no_finding df fs images_dir output_dir val_split iou_thr ratio seed img :
  img ∈ pure_no_finding (run df fs images_dir output_dir val_split iou_thr ratio seed)
  <-> img ∈ map image_id (List.filter (fun r => negb (is_finding_row r)) df) /\
      img ∉ map image_id (List.filter is_finding_row df).
Proof.
  change (pure_no_finding (run df fs images_dir output_dir val_split iou_thr ratio seed))
    with ((list_to_set (pd_unique (map image_id
             (List.filter (fun r => negb (is_finding_row r)) df))) : gset string)
          ∖ list_to_set (pd_unique (map image_id (List.filter is_finding_row df)))).
  rewrite elem_of_difference, !elem_of_list_to_set, !elem_of_pd_unique. reflexivity.
Qed.

Lemma pure_no_finding_spec df fs images_dir output_dir val_split iou_thr ratio seed img :
  img ∈ pure_no_finding (run df fs images_dir output_dir val_split iou_thr ratio seed)
  <-> (exists r, r ∈ df /\ image_id r = img /\ class_id r = 14%Z) /\
      (forall r, r ∈ df -> image_id r = img -> class_id r = 14%Z).
Proof.
  rewrite run_pure_no_finding. split.
  - intros [Hin Hni]. split.
    + apply list_elem_of_fmap in Hin. destruct Hin as (r & -> & Hr).
      apply list_elem_of_In, filter_In in Hr. destruct Hr as [Hr Hc].
      unfold is_finding_row in Hc. rewrite negb_involutive in Hc.
      apply Z.eqb_eq in Hc. exists r. split; [apply list_elem_of_In, Hr | auto].
    + intros r Hr Himg. destruct (class_id r =? 14)%Z eqn:E; [apply Z.eqb_eq, E|].
      exfalso. apply Hni. apply list_elem_of_fmap. exists r. split; [auto|].
      apply list_elem_of_In, filter_In. split; [apply list_elem_of_In, Hr|].
      unfold is_finding_row. now rewrite E.
  - intros [(r & Hr & Himg & Hc) Hall]. split.
    + apply list_elem_of_fmap. exists r. split; [auto|].
      apply list_elem_of_In, filter_In. split; [apply list_elem_of_In, Hr|].
      unfold is_finding_row. rewrite Hc. reflexivity.
    + intros Hin. apply list_elem_of_fmap in Hin. destruct Hin as (r' & -> & Hr').
      apply list_elem_of_In, filter_In in Hr'. destruct Hr' as [Hr' Hc'].
      unfold is_finding_row in Hc'. apply negb_true_iff, Z.eqb_neq in Hc'.
      apply Hc', Hall; [apply list_elem_of_In, Hr' | reflexivity].
Qed.

(** X14. The background candidates of a run are the images that have a
    row of class 14 and no row of any other class. *)
Theorem X14_background_candidates df fs images_dir output_dir val_split iou_thr ratio seed img :
  img ∈ pure_no_finding
          (convert_dataset rng_seed randbelow set_order resolve_posix
             df fs images_dir output_dir val_split iou_thr ratio seed)
  <-> (exists r, r ∈ df /\ image_id r = img /\ class_id r = 14%Z) /\
      (forall r, r ∈ df -> image_id r = img -> class_id r = 14%Z).
Proof. apply pure_no_finding_spec. Qed.

Lemma train_val_sources df fs images_dir output_dir val_split iou_thr ratio seed x :
  let r := run df fs images_dir output_dir val_split iou_thr ratio seed in
  x ∈ train_images r \/ x ∈ val_images r ->
  x ∈ finding_image_list r \/ x ∈ selected_no_finding r.
Proof.
  cbv zeta.
  set (r := run df fs images_dir output_dir val_split iou_thr ratio seed).
  assert (Htr : train_images r =
    list_to_set (slice_from (finding_image_list r) (val_count r))
    ∪ list_to_set (slice_from (selected_no_finding r) (nf_val r))) by reflexivity.
  assert (Hva : val_images r =
    list_to_set (slice_to (finding_image_list r) (val_count r))
    ∪ list_to_set (slice_to (selected_no_finding r) (nf_val r))) by reflexivity.
  clearbody r. rewrite Htr, Hva, !elem_of_union, !elem_of_list_to_set.
  unfold slice_from, slice_to.
  intros [[H|H]|[H|H]];
    (apply subseteq_drop in H || apply subseteq_take in H); auto.
Qed.

Lemma selected_in_pure df fs images_dir output_dir val_split iou_thr ratio seed x :
  enumerates set_order ->
  let r := run df fs images_dir output_dir val_split iou_thr ratio seed in
  x ∈ selected_no_finding r -> x ∈ pure_no_finding r.
Proof.
  intros Horder.
  pose proof (no_finding_list_facts rng_seed randbelow set_order resolve_posix
                df fs images_dir output_dir val_split iou_thr ratio seed Horder)
    as (_ & _ & _ & Hpure).
  cbv zeta in *.
  set (r := run df fs images_dir output_dir val_split iou_thr ratio seed) in *.
  assert (Hsel : exists k, selected_no_finding r = slice_to (no_finding_list r) k)
    by (eexists; reflexivity).
  clearbody r. destruct Hsel as [k ->]. intros Hx. apply Hpure.
  unfold slice_to in Hx. eapply subseteq_take, Hx.
Qed.

(** X15. An image with a row of a finding class is never used as
    background: when it obtains no consensus box (its rows have no
    bounding box, or only boxes that are empty after clamping) it is in
    neither the train nor the val set. *)
Theorem X15_no_box_no_split df fs images_dir output_dir val_split iou_thr ratio seed img :
  enumerates set_order ->
  let r := run df fs images_dir output_dir val_split iou_thr ratio seed in
  (exists row, row ∈ df /\ image_id row = img /\ class_id row <> 14%Z) ->
  img ∉ map fst (yolo_labels r) ->
  (img ∉ train_images r) /\ (img ∉ val_images r).
Proof.
  intros Horder. cbv zeta. intros (row & Hrow & Himg & Hcls) Hkeys.
  assert (Hno : ~ (img ∈ train_images (run df fs images_dir output_dir val_split iou_thr ratio seed)
                   \/ img ∈ val_images (run df fs images_dir output_dir val_split iou_thr ratio seed))).
  { intros H. apply train_val_sources in H. destruct H as [H|H].
    - pose proof (finding_list_facts rng_seed randbelow set_order resolve_posix
                    df fs images_dir output_dir val_split iou_thr ratio seed)
        as (Hp & _).
      cbv zeta in Hp. rewrite Hp in H. contradiction.
    - apply (selected_in_pure _ _ _ _ _ _ _ _ _ Horder) in H.
      apply pure_no_finding_spec in H. destruct H as [_ Hall].
      apply Hcls, Hall; assumption. }
  tauto.
Qed.
End RunProps.

Lemma X14_background_candidates_witness :
  "a"%string ∈ pure_no_finding
    (demo_convert order_a demo_df demo_fs "in" "out" (15#100) (1#2) 1 42).
Proof.
  apply (X14_background_candidates demo_seed demo_randbelow order_a demo_resolve
           demo_df demo_fs "in" "out" (15#100) (1#2) 1 42 "a").
  split.
  - exists (no_finding_row "a" "R1"). split; [|split; reflexivity].
    unfold demo_df. do 2 right. left.
  - intros r Hr Himg. unfold demo_df in Hr.
    repeat (apply elem_of_cons in Hr; destruct Hr as [->|Hr];
            [try reflexivity; try discriminate Himg|]).
    inversion Hr.
Defined.

(** An image whose only finding row has no bounding box. *)
Lemma X15_no_box_no_split_witness :
  let df := [mkRow "x" 3 "R1" None None None None 2048 2048 (1#2) (1#2)] in
  let r := demo_convert order_a df demo_fs "in" "out" (15#100) (1#2) 1 42 in
  enumerates order_a /\ ("x"%string ∉ train_images r) /\ ("x"%string ∉ val_images r).
Proof.
  cbv zeta. split; [exact order_a_enumerates|].
  apply (X15_no_box_no_split demo_seed demo_randbelow order_a demo_resolve
           [mkRow "x" 3 "R1" None None None None 2048 2048 (1#2) (1#2)]
           demo_fs "in" "out" (15#100) (1#2) 1 42 "x" order_a_enumerates).
  - eexists. split; [left|]. split; [reflexivity | discriminate].
  - intros H. vm_compute in H. inversion H.
Defined.

(** ** Counters and the ends of the parameter ranges *)

Section RunEdges.
Context {Rng : Type}.
Variable rng_seed : Z -> Rng.
Variable randbelow : Rng -> nat -> nat * Rng.
Variable set_order : gset string -> list string.
Variable resolve_posix : string -> string.

Local Abbreviation run := (convert_dataset rng_seed randbelow set_order resolve_posix).

Lemma run_counters df fs images_dir output_dir val_split iou_thr ratio seed :
  let r := run df fs images_dir output_dir val_split iou_thr ratio seed in
  (missing r + copied r
   = length (set_order (train_images r)) + length (set_order (val_images r)))%nat.
Proof.
  cbv zeta.
  set (r := run df fs images_dir output_dir val_split iou_thr ratio seed).
  assert (H : exists labels,
    (missing r, copied r) =
    (snd (fst (fold_left (materialize_split set_order labels images_dir output_dir)
                 [("train"%string, train_images r); ("val"%string, val_images r)]
                 (fs, 0%nat, 0%nat))),
     snd (fold_left (materialize_split set_order labels images_dir output_dir)
            [("train"%string, train_images r); ("val"%string, val_images r)]
            (fs, 0%nat, 0%nat)))) by (eexists; reflexivity).
  clearbody r. destruct H as [labels [= -> ->]].
  cbn [fold_left]. unfold materialize_split. cbn [fst snd].
  rewrite materialize_ids_counts, materialize_ids_counts. simpl. lia.
Qed.

(** X16. Every image of the train and val sets is either copied with its
    label file or reported missing: the two counters add up to the number
    of selected images. *)
Theorem X16_copied_plus_missing df fs images_dir output_dir val_split iou_thr ratio seed :
  enumerates set_order ->
  let r := run df fs images_dir output_dir val_split iou_thr ratio seed in
  (missing r + copied r = size (train_images r) + size (val_images r))%nat.
Proof.
  intros Horder. cbv zeta. rewrite run_counters.
  rewrite (Permutation_length (Horder _)), (Permutation_length (Horder _)).
  reflexivity.
Qed.

Lemma py_int_ge (n : nat) (x : Q) :
  inject_Z (Z.of_nat n) <= x -> (Z.of_nat n <= py_int x)%Z.
Proof.
  intros Hx.
  assert (H0 : 0 <= inject_Z (Z.of_nat n)) by apply inject_nat_nonneg.
  rewrite py_int_floor by lra.
  rewrite <- (Qfloor_Z (Z.of_nat n)). apply Qfloor_resp_le, Hx.
Qed.

Lemma slice_to_all {A} (l : list A) (k : Z) :
  (Z.of_nat (length l) <= k)%Z -> slice_to l k = l.
Proof.
  intros Hk. unfold slice_to, slice_bound.
  destruct (k <? 0)%Z eqn:E; [apply Z.ltb_lt in E; lia|].
  apply take_ge. lia.
Qed.

Lemma slice_from_all {A} (l : list A) (k : Z) :
  (Z.of_nat (length l) <= k)%Z -> slice_from l k = [].
Proof.
  intros Hk. unfold slice_from, slice_bound.
  destruct (k <? 0)%Z eqn:E; [apply Z.ltb_lt in E; lia|].
  apply drop_ge. lia.
Qed.

(** X17. With a split fraction of 1 or more the whole selection goes to
    val: train is empty, and val holds every finding image and every
    selected background image. *)
Theorem X17_split_fraction_one_or_more df fs images_dir output_dir val_split iou_thr ratio seed :
  1 <= val_split ->
  let r := convert_dataset rng_seed randbelow set_order resolve_posix
             df fs images_dir output_dir val_split iou_thr ratio seed in
  train_images r = ∅ /\
  val_images r = list_to_set (finding_image_list r)
                 ∪ list_to_set (selected_no_finding r).
Proof.
  intros Hvs. cbv zeta.
  set (r := run df fs images_dir output_dir val_split iou_thr ratio seed).
  assert (Htr : train_images r =
    list_to_set (slice_from (finding_image_list r) (val_count r))
    ∪ list_to_set (slice_from (selected_no_finding r) (nf_val r))) by reflexivity.
  assert (Hva : val_images r =
    list_to_set (slice_to (finding_image_list r) (val_count r))
    ∪ list_to_set (slice_to (selected_no_finding r) (nf_val r))) by reflexivity.
  assert (Hvc : val_count r =
    py_int (inject_Z (Z.of_nat (length (finding_image_list r))) * val_split))
    by reflexivity.
  assert (Hnf : nf_val r =
    py_int (inject_Z (Z.of_nat (length (selected_no_finding r))) * val_split))
    by reflexivity.
  clearbody r.
  assert (H1 : (Z.of_nat (length (finding_image_list r)) <= val_count r)%Z).
  { rewrite Hvc. apply py_int_ge.
    pose proof (inject_nat_nonneg (length (finding_image_list r))). nra. }
  assert (H2 : (Z.of_nat (length (selected_no_finding r)) <= nf_val r)%Z).
  { rewrite Hnf. apply py_int_ge.
    pose proof (inject_nat_nonneg (length (selected_no_finding r))). nra. }
  rewrite Htr, Hva.
  rewrite !slice_from_all, !slice_to_all by assumption.
  split; [|reflexivity]. simpl. apply union_empty_l_L.
Qed.




End RunEdges.


Lemma X16_copied_plus_missing_witness :
  let r := demo_convert order_a demo_df demo_fs_missing "in" "out" (15#100) (1#2) 1 42 in
  enumerates order_a /\
  (missing r + copied r = size (train_images r) + size (val_images r))%nat.
Proof.
  cbv zeta. split; [exact order_a_enumerates|].
  apply (X16_copied_plus_missing demo_seed demo_randbelow order_a demo_resolve
           demo_df demo_fs_missing "in" "out" (15#100) (1#2) 1 42 order_a_enumerates).
Defined.

Lemma X17_split_fraction_one_or_more_witness :
  1 <= 1 /\
  train_images (demo_convert order_a demo_df demo_fs "in" "out" 1 (1#2) 1 42) = ∅.
Proof.
  assert (H : 1 <= 1) by apply Qle_refl.
  split; [exact H|].
  apply (X17_split_fraction_one_or_more demo_seed demo_randbelow order_a demo_resolve
           demo_df demo_fs "in" "out" 1 (1#2) 1 42 H).
Defined.

(** ** Paths *)

Lemma append_cons (a : ascii) (s t : string) :
  String a s +:+ t = String a (s +:+ t).
Proof. reflexivity. Qed.

Lemma append_assoc (s t u : string) : (s +:+ t) +:+ u = s +:+ (t +:+ u).
Proof.
  induction s as [|a s IH]; [reflexivity|].
  rewrite !append_cons. f_equal. exact IH.
Qed.

Lemma prefix_append (s t : string) : String.prefix s (s +:+ t) = true.
Proof.
  induction s as [|a s IH]; [destruct t; reflexivity|].
  rewrite append_cons. cbn [String.prefix].
  destruct (ascii_dec a a); [exact IH | congruence].
Qed.

Lemma length_append (s t : string) :
  String.length (s +:+ t) = (String.length s + String.length t)%nat.
Proof.
  induction s as [|a s IH]; [reflexivity|].
  rewrite append_cons. cbn [String.length]. rewrite IH. reflexivity.
Qed.

Lemma append_inj_l (s t u : string) : s +:+ t = s +:+ u -> t = u.
Proof.
  induction s as [|a s IH]; [auto|].
  rewrite !append_cons. intros [= H]. auto.
Qed.

Lemma append_inj_r (s t u : string) : s +:+ u = t +:+ u -> s = t.
Proof.
  revert t. induction s as [|a s IH]; intros [|b t] H.
  - reflexivity.
  - exfalso. apply (f_equal String.length) in H.
    rewrite !length_append in H. cbn [String.length] in H. lia.
  - exfalso. apply (f_equal String.length) in H.
    rewrite !length_append in H. cbn [String.length] in H. lia.
  - rewrite !append_cons in H. injection H as -> H. f_equal. apply IH, H.
Qed.

Lemma label_path_under output_dir split_name img_id :
  label_path output_dir split_name img_id =
  (output_dir +:+ "/") +:+ ("labels/" +:+ split_name +:+ "/" +:+ img_id +:+ ".txt").
Proof.
  unfold label_path, path_join. rewrite !append_assoc. reflexivity.
Qed.

Lemma image_path_under output_dir split_name img_id :
  image_path output_dir split_name img_id =
  (output_dir +:+ "/") +:+ ("images/" +:+ split_name +:+ "/" +:+ img_id +:+ ".jpg").
Proof.
  unfold image_path, path_join. rewrite !append_assoc. reflexivity.
Qed.

Lemma yaml_path_under output_dir :
  path_join output_dir "dataset.yaml" = (output_dir +:+ "/") +:+ "dataset.yaml".
Proof. unfold path_join. rewrite !append_assoc. reflexivity. Qed.

Lemma label_path_inj output_dir s1 s2 i1 i2 :
  split_name_ok s1 -> split_name_ok s2 ->
  label_path output_dir s1 i1 = label_path output_dir s2 i2 -> s1 = s2 /\ i1 = i2.
Proof.
  intros H1 H2. rewrite !label_path_under. intros H.
  apply append_inj_l in H. apply (append_inj_l "labels/") in H.
  destruct H1 as [-> | ->], H2 as [-> | ->]; try discriminate H.
  - apply (append_inj_l "train/") in H. apply append_inj_r in H. auto.
  - apply (append_inj_l "val/") in H. apply append_inj_r in H. auto.
Qed.

Lemma image_path_inj output_dir s1 s2 i1 i2 :
  split_name_ok s1 -> split_name_ok s2 ->
  image_path output_dir s1 i1 = image_path output_dir s2 i2 -> s1 = s2 /\ i1 = i2.
Proof.
  intros H1 H2. rewrite !image_path_under. intros H.
  apply append_inj_l in H. apply (append_inj_l "images/") in H.
  destruct H1 as [-> | ->], H2 as [-> | ->]; try discriminate H.
  - apply (append_inj_l "train/") in H. apply append_inj_r in H. auto.
  - apply (append_inj_l "val/") in H. apply append_inj_r in H. auto.
Qed.

Lemma image_label_paths_differ output_dir s1 s2 i1 i2 :
  image_path output_dir s1 i1 <> label_path output_dir s2 i2.
Proof.
  rewrite image_path_under, label_path_under. intros H.
  apply append_inj_l in H. discriminate H.
Qed.

Lemma yaml_label_paths_differ output_dir s i :
  path_join output_dir "dataset.yaml" <> label_path output_dir s i.
Proof.
  rewrite yaml_path_under, label_path_under. intros H.
  apply append_inj_l in H. discriminate H.
Qed.

Lemma yaml_image_paths_differ output_dir s i :
  path_join output_dir "dataset.yaml" <> image_path output_dir s i.
Proof.
  rewrite yaml_path_under, image_path_under. intros H.
  apply append_inj_l in H. discriminate H.
Qed.

Lemma not_under_differs output_dir p q :
  String.prefix (output_dir +:+ "/") p = false ->
  String.prefix (output_dir +:+ "/") q = true -> p <> q.
Proof. intros Hp Hq ->. congruence. Qed.

(** ** One step of the materialisation *)

(** What one pass of the loop body (lines 329-351) does: nothing but a
    count when no source exists, or else an image kept or copied, a label
    file written or touched, and a count. *)
Lemma materialize_one_eq labels images_dir output_dir split_name fs m c img :
  materialize_one labels images_dir output_dir split_name (fs, m, c) img =
  if source_absent fs images_dir img then (fs, S m, c)
  else
    (<[label_path output_dir split_name img :=
         match alist_lookup img labels with
         | Some lines => label_text lines
         | None => default ""%string (fs !! label_path output_dir split_name img)
         end]>
       (<[image_path output_dir split_name img :=
            default (source_bytes fs images_dir img)
                    (fs !! image_path output_dir split_name img)]> fs),
     m, S c).
Proof.
  unfold materialize_one, source_absent, source_bytes.
  change (path_join images_dir (img +:+ ".jpg")) with (source_jpg images_dir img).
  change (path_join images_dir (img +:+ ".png")) with (source_png images_dir img).
  change (path_join (path_join (path_join output_dir "images") split_name)
            (img +:+ ".jpg")) with (image_path output_dir split_name img).
  change (path_join (path_join (path_join output_dir "labels") split_name)
            (img +:+ ".txt")) with (label_path output_dir split_name img).
  pose proof (image_label_paths_differ output_dir split_name split_name img img) as Hne.
  set (ip := image_path output_dir split_name img) in *.
  set (lp := label_path output_dir split_name img) in *.
  assert (Hgen : forall b0,
    (let fs1 := match fs !! ip with
                | Some _ => fs
                | None => <[ip := b0]> fs
                end in
     let fs2 := match alist_lookup img labels with
                | Some lines => <[lp := String.concat nl lines +:+ nl]> fs1
                | None => match fs1 !! lp with
                          | Some _ => fs1
                          | None => <[lp := ""%string]> fs1
                          end
                end in
     (fs2, m, S c))
    = (<[lp := match alist_lookup img labels with
               | Some lines => label_text lines
               | None => default ""%string (fs !! lp)
               end]>
         (<[ip := default b0 (fs !! ip)]> fs),
       m, S c)).
  { intros b0. cbv zeta. f_equal. f_equal.
    destruct (fs !! ip) as [old|] eqn:Ei; cbn [default].
    - rewrite (insert_id fs ip old Ei).
      destruct (alist_lookup img labels) as [lines|]; [reflexivity|].
      destruct (fs !! lp) as [t|] eqn:El; cbn [default]; [|reflexivity].
      symmetry. apply insert_id, El.
    - destruct (alist_lookup img labels) as [lines|]; [reflexivity|].
      rewrite (lookup_insert_ne fs ip lp _ Hne).
      destruct (fs !! lp) as [t|] eqn:El; cbn [default]; [|reflexivity].
      symmetry. apply insert_id. rewrite lookup_insert_ne by exact Hne. exact El. }
  destruct (fs !! source_jpg images_dir img) as [j|] eqn:Ej.
  - etransitivity; [|exact (Hgen j)]. cbv beta iota zeta. rewrite Ej. reflexivity.
  - destruct (fs !! source_png images_dir img) as [p|] eqn:Ep; [|reflexivity].
    etransitivity; [|exact (Hgen p)]. cbv beta iota zeta. rewrite Ep. reflexivity.
Qed.

Section Materialize.
Variable set_order : gset string -> list string.
Variable labels : list (string * list string).
Variables images_dir output_dir : string.

Local Abbreviation step := (materialize_step labels images_dir output_dir).
Local Abbreviation State := (gmap string string * nat * nat)%type.

(** The two nested loops visit the steps of [split_steps] in order. *)
Lemma materialize_flat splits (st : State) :
  fold_left (materialize_split set_order labels images_dir output_dir) splits st
  = fold_left step (split_steps set_order splits) st.
Proof.
  revert st. induction splits as [|[name X] splits IH]; intros st; [reflexivity|].
  cbn [fold_left]. unfold split_steps. cbn [map concat fst snd].
  rewrite fold_left_app. fold (split_steps set_order splits). rewrite <- IH.
  f_equal. unfold materialize_split. cbn [fst snd].
  generalize (set_order X) st. intros l. induction l as [|i l IHl]; intros st0;
    [reflexivity|].
  cbn [map fold_left]. apply IHl.
Qed.

Lemma elem_of_split_steps splits name img :
  (name, img) ∈ split_steps set_order splits
  <-> exists X, (name, X) ∈ splits /\ img ∈ set_order X.
Proof.
  unfold split_steps. induction splits as [|[n X] splits IH]; cbn [map concat fst snd].
  - split; [intros H; inversion H | intros (X & H & _); inversion H].
  - rewrite elem_of_app, IH, list_elem_of_fmap. split.
    + intros [(i & [= -> ->] & Hi) | (Y & HY & Hi)].
      * exists X. split; [left | exact Hi].
      * exists Y. split; [right; exact HY | exact Hi].
    + intros (Y & HY & Hi). apply elem_of_cons in HY. destruct HY as [[= -> ->] | HY].
      * left. exists img. auto.
      * right. exists Y. auto.
Qed.

Lemma split_steps_names splits s :
  Forall (fun sp => split_name_ok (fst sp)) splits ->
  s ∈ split_steps set_order splits -> split_name_ok (fst s).
Proof.
  intros Hok Hs. destruct s as [name img].
  apply elem_of_split_steps in Hs. destruct Hs as (X & HX & _).
  rewrite Forall_forall in Hok. exact (Hok _ HX).
Qed.

Lemma fold_invariant (Inv : State -> Prop) (steps : list (string * string)) :
  (forall s st, s ∈ steps -> Inv st -> Inv (step st s)) ->
  forall st, Inv st -> Inv (fold_left step steps st).
Proof.
  induction steps as [|a steps IH]; intros Hstep st Hst; [exact Hst|].
  cbn [fold_left]. apply IH.
  - intros s st' Hs. apply Hstep. now right.
  - apply Hstep; [left | exact Hst].
Qed.

Lemma fold_staged (Pre Post : State -> Prop) (target : string * string)
    (steps : list (string * string)) :
  (forall s st, s ∈ steps -> s <> target -> Pre st -> Pre (step st s)) ->
  (forall st, Pre st -> Post (step st target)) ->
  (forall s st, s ∈ steps -> Post st -> Post (step st s)) ->
  target ∈ steps ->
  forall st, Pre st -> Post (fold_left step steps st).
Proof.
  induction steps as [|a steps IH]; intros Hpre Hhit Hpost Hin st Hst;
    [inversion Hin|].
  cbn [fold_left]. destruct (decide (a = target)) as [->|Hne].
  - apply fold_invariant.
    + intros s st' Hs. apply Hpost. now right.
    + apply Hhit, Hst.
  - apply IH.
    + intros s st' Hs. apply Hpre. now right.
    + exact Hhit.
    + intros s st' Hs. apply Hpost. now right.
    + apply elem_of_cons in Hin. destruct Hin as [<-|Hin]; [congruence | exact Hin].
    + apply Hpre; [left | exact Hne | exact Hst].
Qed.

(** A file that exists stays. *)
Lemma step_keeps_files (st : State) s p :
  is_Some (fst (fst st) !! p) -> is_Some (fst (fst (step st s)) !! p).
Proof.
  destruct st as [[fs m] c]. unfold materialize_step. rewrite materialize_one_eq.
  cbn [fst]. intros H.
  destruct (source_absent fs images_dir (snd s)); cbn [fst]; [exact H|].
  apply lookup_insert_is_Some'. right. apply lookup_insert_is_Some'. now right.
Qed.

(** A file that exists and is not a label file keeps its content. *)
Lemma step_keeps_content (st : State) s p v :
  (forall name img, p <> label_path output_dir name img) ->
  fst (fst st) !! p = Some v -> fst (fst (step st s)) !! p = Some v.
Proof.
  destruct st as [[fs m] c]. unfold materialize_step. rewrite materialize_one_eq.
  cbn [fst]. intros Hp H.
  destruct (source_absent fs images_dir (snd s)); cbn [fst]; [exact H|].
  rewrite lookup_insert_ne by (intros E; exact (Hp _ _ (eq_sym E))).
  destruct (decide (image_path output_dir (fst s) (snd s) = p)) as [<-|Hne].
  - rewrite lookup_insert_eq, H. reflexivity.
  - rewrite lookup_insert_ne by exact Hne. exact H.
Qed.

(** A path that is neither the image nor the label of the step is not
    touched. *)
Lemma step_elsewhere (st : State) s p :
  p <> label_path output_dir (fst s) (snd s) ->
  p <> image_path output_dir (fst s) (snd s) ->
  fst (fst (step st s)) !! p = fst (fst st) !! p.
Proof.
  destruct st as [[fs m] c]. unfold materialize_step. rewrite materialize_one_eq.
  cbn [fst]. intros Hl Hi.
  destruct (source_absent fs images_dir (snd s)); cbn [fst]; [reflexivity|].
  rewrite lookup_insert_ne by congruence. rewrite lookup_insert_ne by congruence.
  reflexivity.
Qed.

Lemma step_not_under (st : State) s p :
  String.prefix (output_dir +:+ "/") p = false ->
  fst (fst (step st s)) !! p = fst (fst st) !! p.
Proof.
  intros Hp. apply step_elsewhere.
  - apply (not_under_differs output_dir); [exact Hp|].
    rewrite label_path_under. apply prefix_append.
  - apply (not_under_differs output_dir); [exact Hp|].
    rewrite image_path_under. apply prefix_append.
Qed.

Lemma source_absent_is_Some fs img :
  source_absent fs images_dir img = false <->
  is_Some (fs !! source_jpg images_dir img) \/ is_Some (fs !! source_png images_dir img).
Proof.
  unfold source_absent.
  destruct (fs !! source_jpg images_dir img), (fs !! source_png images_dir img);
    split; try (intros _; eauto; fail); try discriminate.
  intros [[x H]|[x H]]; discriminate H.
Qed.

Lemma step_source_stays (st : State) s img :
  source_absent (fst (fst st)) images_dir img = false ->
  source_absent (fst (fst (step st s))) images_dir img = false.
Proof.
  rewrite !source_absent_is_Some.
  intros [H|H]; [left | right]; apply step_keeps_files, H.
Qed.

Lemma step_source_fixed (st : State) s img :
  sources_outside images_dir output_dir img ->
  source_absent (fst (fst (step st s))) images_dir img
  = source_absent (fst (fst st)) images_dir img /\
  source_bytes (fst (fst (step st s))) images_dir img
  = source_bytes (fst (fst st)) images_dir img.
Proof.
  intros [Hj Hp]. unfold source_absent, source_bytes.
  rewrite !(step_not_under st s _ Hj), !(step_not_under st s _ Hp). auto.
Qed.

(** The label file of the step's own image. *)
Lemma step_label (st : State) s :
  source_absent (fst (fst st)) images_dir (snd s) = false ->
  fst (fst (step st s)) !! label_path output_dir (fst s) (snd s)
  = Some match alist_lookup (snd s) labels with
         | Some lines => label_text lines
         | None => default ""%string
                     (fst (fst st) !! label_path output_dir (fst s) (snd s))
         end.
Proof.
  destruct st as [[fs m] c]. unfold materialize_step. rewrite materialize_one_eq.
  cbn [fst]. intros ->. cbn [fst]. apply lookup_insert_eq.
Qed.

(** The image file of the step's own image. *)
Lemma step_image (st : State) s :
  source_absent (fst (fst st)) images_dir (snd s) = false ->
  fst (fst (step st s)) !! image_path output_dir (fst s) (snd s)
  = Some (default (source_bytes (fst (fst st)) images_dir (snd s))
                  (fst (fst st) !! image_path output_dir (fst s) (snd s))).
Proof.
  destruct st as [[fs m] c]. unfold materialize_step. rewrite materialize_one_eq.
  cbn [fst]. intros ->. cbn [fst].
  rewrite lookup_insert_ne
    by (intros E; exact (image_label_paths_differ _ _ _ _ _ (eq_sym E))).
  apply lookup_insert_eq.
Qed.

(** A step for an image without source changes no file. *)
Lemma step_absent (st : State) s :
  source_absent (fst (fst st)) images_dir (snd s) = true ->
  step st s = (fst (fst st), S (snd (fst st)), snd st).
Proof.
  destruct st as [[fs m] c]. unfold materialize_step. rewrite materialize_one_eq.
  cbn [fst snd]. intros ->. reflexivity.
Qed.

Lemma step_missing (st : State) s :
  snd (fst (step st s))
  = if source_absent (fst (fst st)) images_dir (snd s)
    then S (snd (fst st)) else snd (fst st).
Proof.
  destruct st as [[fs m] c]. unfold materialize_step. rewrite materialize_one_eq.
  cbn [fst snd]. destruct (source_absent fs images_dir (snd s)); reflexivity.
Qed.

End Materialize.

(** ** The files a run leaves behind *)

Lemma count_absent_app fs images_dir l1 l2 :
  count_absent fs images_dir (l1 ++ l2)
  = (count_absent fs images_dir l1 + count_absent fs images_dir l2)%nat.
Proof. unfold count_absent. rewrite List.filter_app, length_app. reflexivity. Qed.

Lemma count_absent_perm fs images_dir l1 l2 :
  l1 ≡ₚ l2 -> count_absent fs images_dir l1 = count_absent fs images_dir l2.
Proof.
  unfold count_absent. induction 1 as [|x l l' _ IH|x y l|l l' l'' _ IH1 _ IH2].
  - reflexivity.
  - cbn [List.filter]. destruct (source_absent fs images_dir x); cbn [length]; lia.
  - cbn [List.filter].
    destruct (source_absent fs images_dir x), (source_absent fs images_dir y);
      reflexivity.
  - lia.
Qed.

Section RunFiles.
Context {Rng : Type}.
Variable rng_seed : Z -> Rng.
Variable randbelow : Rng -> nat -> nat * Rng.
Variable set_order : gset string -> list string.
Variable resolve_posix : string -> string.

Local Abbreviation run := (convert_dataset rng_seed randbelow set_order resolve_posix).
Local Abbreviation State := (gmap string string * nat * nat)%type.

(** The file system, and the counters, after the two loops. *)
Lemma run_materialized df fs images_dir output_dir val_split iou_thr ratio seed :
  let r := run df fs images_dir output_dir val_split iou_thr ratio seed in
  let st := fold_left (materialize_step (yolo_labels r) images_dir output_dir)
              (split_steps set_order (run_splits r)) (fs, 0%nat, 0%nat) in
  files r = <[path_join output_dir "dataset.yaml" :=
                yaml_content resolve_posix output_dir]> (fst (fst st)) /\
  missing r = snd (fst st) /\ copied r = snd st.
Proof.
  cbv zeta. rewrite <- materialize_flat. unfold run_splits.
  set (r := run df fs images_dir output_dir val_split iou_thr ratio seed).
  repeat split; reflexivity.
Qed.

Lemma run_splits_names (r : Run) :
  Forall (fun sp => split_name_ok (fst sp)) (run_splits r).
Proof.
  unfold run_splits.
  constructor; [left; reflexivity|]. constructor; [right; reflexivity|]. constructor.
Qed.

Lemma run_step_member (r : Run) name X img :
  enumerates set_order -> (name, X) ∈ run_splits r -> img ∈ X ->
  (name, img) ∈ split_steps set_order (run_splits r).
Proof.
  intros Horder HX Himg. apply elem_of_split_steps. exists X. split; [exact HX|].
  rewrite (Horder X). apply elem_of_elements, Himg.
Qed.

Lemma run_keeps_files df fs images_dir output_dir val_split iou_thr ratio seed p v :
  let r := run df fs images_dir output_dir val_split iou_thr ratio seed in
  fs !! p = Some v ->
  is_Some (files r !! p) /\
  ((forall name img, p <> label_path output_dir name img) ->
   p <> path_join output_dir "dataset.yaml" ->
   files r !! p = Some v).
Proof.
  cbv zeta. intros Hp.
  destruct (run_materialized df fs images_dir output_dir val_split iou_thr ratio seed)
    as (Hf & _ & _). cbv zeta in Hf. rewrite Hf. clear Hf.
  set (r := run df fs images_dir output_dir val_split iou_thr ratio seed).
  clearbody r. split.
  - apply lookup_insert_is_Some'. right.
    apply (fold_invariant (yolo_labels r) images_dir output_dir
             (fun st : State => is_Some (fst (fst st) !! p))).
    + intros s st _. apply step_keeps_files.
    + cbn [fst]. rewrite Hp. eauto.
  - intros Hlabel Hyaml. rewrite lookup_insert_ne by congruence.
    apply (fold_invariant (yolo_labels r) images_dir output_dir
             (fun st : State => fst (fst st) !! p = Some v)).
    + intros s st _. apply step_keeps_content, Hlabel.
    + exact Hp.
Qed.

(** X19. For image ids that are plain file names: a run removes no
    file, and it changes the content of no file that exists, label files
    and the manifest apart: an image that is already in the output
    directory is not copied again, whatever the source holds now. *)
Theorem X19_existing_files_kept df fs images_dir output_dir val_split iou_thr ratio seed p v :
  let r := run df fs images_dir output_dir val_split iou_thr ratio seed in
  plain_ids df = true ->
  fs !! p = Some v ->
  is_Some (files r !! p) /\
  ((forall name img, p <> label_path output_dir name img) ->
   p <> path_join output_dir "dataset.yaml" ->
   files r !! p = Some v).
Proof. intros r _. apply run_keeps_files. Qed.

Lemma run_label_file df fs images_dir output_dir val_split iou_thr ratio seed name X img :
  let r := run df fs images_dir output_dir val_split iou_thr ratio seed in
  enumerates set_order ->
  (name, X) ∈ run_splits r -> img ∈ X ->
  source_absent fs images_dir img = false ->
  files r !! label_path output_dir name img
  = Some match alist_lookup img (yolo_labels r) with
         | Some lines => label_text lines
         | None => default ""%string (fs !! label_path output_dir name img)
         end.
Proof.
  cbv zeta. intros Horder HX Himg Hsrc.
  destruct (run_materialized df fs images_dir output_dir val_split iou_thr ratio seed)
    as (Hf & _ & _). cbv zeta in Hf. rewrite Hf. clear Hf.
  set (r := run df fs images_dir output_dir val_split iou_thr ratio seed) in *.
  clearbody r.
  rewrite lookup_insert_ne by apply yaml_label_paths_differ.
  pose proof (run_splits_names r) as Hnames.
  assert (Hname : split_name_ok name).
  { rewrite Forall_forall in Hnames. exact (Hnames _ HX). }
  set (lp := label_path output_dir name img).
  set (text := match alist_lookup img (yolo_labels r) with
               | Some lines => label_text lines
               | None => default ""%string (fs !! lp)
               end).
  apply (fold_staged (yolo_labels r) images_dir output_dir
           (fun st : State => source_absent (fst (fst st)) images_dir img = false /\
                              fst (fst st) !! lp = fs !! lp)
           (fun st : State => fst (fst st) !! lp = Some text)
           (name, img)).
  - intros s st Hs Hne [H1 H2]. split; [apply step_source_stays, H1|].
    rewrite <- H2. apply step_elsewhere.
    + intros E. apply label_path_inj in E;
        [|exact Hname | exact (split_steps_names set_order _ _ Hnames Hs)].
      destruct s as [n i]. cbn [fst snd] in E. destruct E as [-> ->]. congruence.
    + intros E. exact (image_label_paths_differ _ _ _ _ _ (eq_sym E)).
  - intros st [H1 H2].
    pose proof (step_label (yolo_labels r) images_dir output_dir st (name, img) H1)
      as Hl.
    cbn [fst snd] in Hl. fold lp in Hl. rewrite Hl, H2. reflexivity.
  - intros s st Hs Hpost.
    destruct (decide (label_path output_dir (fst s) (snd s) = lp)) as [E|E].
    + destruct (source_absent (fst (fst st)) images_dir (snd s)) eqn:Ha.
      * rewrite (step_absent (yolo_labels r) images_dir output_dir st s Ha).
        exact Hpost.
      * pose proof (step_label (yolo_labels r) images_dir output_dir st s Ha) as Hl.
        rewrite E in Hl. rewrite Hl. f_equal.
        apply label_path_inj in E;
          [|exact (split_steps_names set_order _ _ Hnames Hs) | exact Hname].
        destruct E as [_ ->]. rewrite Hpost. subst text.
        destruct (alist_lookup img (yolo_labels r)); reflexivity.
    + rewrite <- Hpost. apply step_elsewhere; [congruence|].
      intros E'. exact (image_label_paths_differ _ _ _ _ _ (eq_sym E')).
  - apply run_step_member with X; assumption.
  - split; [exact Hsrc | reflexivity].
Qed.

(** X20. For image ids that are plain file names: the label file of an
    image of the train or val set whose source exists holds, after the
    run, the lines of the image joined by newlines with a final newline;
    for an image without lines it is empty if it did not exist, and keeps
    its old content if it did. *)
Theorem X20_label_file_content df fs images_dir output_dir val_split iou_thr ratio seed
    name X img :
  let r := run df fs images_dir output_dir val_split iou_thr ratio seed in
  enumerates set_order ->
  plain_ids df = true ->
  (name, X) ∈ run_splits r -> img ∈ X ->
  source_absent fs images_dir img = false ->
  files r !! label_path output_dir name img
  = Some match alist_lookup img (yolo_labels r) with
         | Some lines => label_text lines
         | None => default ""%string (fs !! label_path output_dir name img)
         end.
Proof. intros r Horder _. apply run_label_file, Horder. Qed.

Lemma run_image_file df fs images_dir output_dir val_split iou_thr ratio seed name X img :
  let r := run df fs images_dir output_dir val_split iou_thr ratio seed in
  enumerates set_order ->
  sources_outside images_dir output_dir img ->
  (name, X) ∈ run_splits r -> img ∈ X ->
  source_absent fs images_dir img = false ->
  files r !! image_path output_dir name img
  = Some (default (source_bytes fs images_dir img)
                  (fs !! image_path output_dir name img)).
Proof.
  cbv zeta. intros Horder Hout HX Himg Hsrc.
  destruct (run_materialized df fs images_dir output_dir val_split iou_thr ratio seed)
    as (Hf & _ & _). cbv zeta in Hf. rewrite Hf. clear Hf.
  set (r := run df fs images_dir output_dir val_split iou_thr ratio seed) in *.
  clearbody r.
  rewrite lookup_insert_ne by apply yaml_image_paths_differ.
  pose proof (run_splits_names r) as Hnames.
  assert (Hname : split_name_ok name).
  { rewrite Forall_forall in Hnames. exact (Hnames _ HX). }
  set (ip := image_path output_dir name img).
  apply (fold_staged (yolo_labels r) images_dir output_dir
           (fun st : State =>
              source_absent (fst (fst st)) images_dir img = false /\
              source_bytes (fst (fst st)) images_dir img = source_bytes fs images_dir img /\
              fst (fst st) !! ip = fs !! ip)
           (fun st : State =>
              fst (fst st) !! ip
              = Some (default (source_bytes fs images_dir img) (fs !! ip)))
           (name, img)).
  - intros s st Hs Hne (H1 & H2 & H3).
    destruct (step_source_fixed (yolo_labels r) images_dir output_dir st s img Hout)
      as [Ha Hb].
    rewrite Ha, Hb. split; [exact H1|]. split; [exact H2|].
    rewrite <- H3. apply step_elsewhere.
    + apply image_label_paths_differ.
    + intros E. apply image_path_inj in E;
        [|exact Hname | exact (split_steps_names set_order _ _ Hnames Hs)].
      destruct s as [n i]. cbn [fst snd] in E. destruct E as [-> ->]. congruence.
  - intros st (H1 & H2 & H3).
    pose proof (step_image (yolo_labels r) images_dir output_dir st (name, img) H1)
      as Hi.
    cbn [fst snd] in Hi. fold ip in Hi. rewrite Hi, H2, H3. reflexivity.
  - intros s st Hs Hpost. apply step_keeps_content; [|exact Hpost].
    intros n i. apply image_label_paths_differ.
  - apply run_step_member with X; assumption.
  - split; [exact Hsrc|]. split; reflexivity.
Qed.

(** X21. For image ids that are plain file names and a source that does
    not lie under the output directory: the image of the train or val set
    is found afterwards at [<out>/images/<split>/<id>.jpg], with the
    content of the [.jpg] source, or of the [.png] source when there is no
    [.jpg] (the name stays [.jpg]), unless that file existed already, in
    which case it is kept. *)
Theorem X21_image_file_content df fs images_dir output_dir val_split iou_thr ratio seed
    name X img :
  let r := run df fs images_dir output_dir val_split iou_thr ratio seed in
  enumerates set_order ->
  plain_ids df = true ->
  sources_outside images_dir output_dir img ->
  (name, X) ∈ run_splits r -> img ∈ X ->
  source_absent fs images_dir img = false ->
  files r !! image_path output_dir name img
  = Some (default (source_bytes fs images_dir img)
                  (fs !! image_path output_dir name img)).
Proof. intros r Horder _. apply run_image_file, Horder. Qed.

Lemma fold_missing labels fs images_dir output_dir (steps : list (string * string)) :
  (forall img, sources_outside images_dir output_dir img) ->
  forall st : State,
  (forall img, source_absent (fst (fst st)) images_dir img
               = source_absent fs images_dir img) ->
  snd (fst (fold_left (materialize_step labels images_dir output_dir) steps st))
  = (snd (fst st) + count_absent fs images_dir (map snd steps))%nat.
Proof.
  intros Hout. induction steps as [|s steps IH]; intros st Hst.
  - cbn. unfold count_absent. cbn. lia.
  - cbn [fold_left map]. rewrite IH.
    + rewrite step_missing, Hst. unfold count_absent. cbn [List.filter].
      destruct (source_absent fs images_dir (snd s)); cbn [length]; lia.
    + intros img.
      destruct (step_source_fixed labels images_dir output_dir st s img (Hout img))
        as [-> _]. apply Hst.
Qed.

Lemma split_steps_ids splits :
  map snd (split_steps set_order splits) = concat (map (fun sp => set_order (snd sp)) splits).
Proof.
  unfold split_steps. induction splits as [|[n X] splits IH]; [reflexivity|].
  cbn [map concat fst snd]. rewrite List.map_app, IH. f_equal.
  induction (set_order X) as [|i l IHl]; [reflexivity|].
  cbn [map snd]. f_equal. exact IHl.
Qed.

Lemma run_missing df fs images_dir output_dir val_split iou_thr ratio seed :
  let r := run df fs images_dir output_dir val_split iou_thr ratio seed in
  enumerates set_order ->
  (forall img, sources_outside images_dir output_dir img) ->
  missing r = (count_absent fs images_dir (elements (train_images r))
               + count_absent fs images_dir (elements (val_images r)))%nat.
Proof.
  cbv zeta. intros Horder Hout.
  destruct (run_materialized df fs images_dir output_dir val_split iou_thr ratio seed)
    as (_ & Hm & _). cbv zeta in Hm. rewrite Hm. clear Hm.
  set (r := run df fs images_dir output_dir val_split iou_thr ratio seed) in *.
  clearbody r.
  rewrite (fold_missing _ fs _ _ _ Hout) by reflexivity.
  rewrite split_steps_ids. unfold run_splits. cbn [map concat fst snd].
  rewrite app_nil_r, count_absent_app.
  rewrite (count_absent_perm _ _ _ _ (Horder (train_images r))).
  rewrite (count_absent_perm _ _ _ _ (Horder (val_images r))). reflexivity.
Qed.

(** X22. For image ids that are plain file names, when the sources do
    not lie under the output directory: the counter of missing images is the number of images of the train and
    val sets that have neither a [.jpg] nor a [.png] in the image
    directory before the run. *)
Theorem X22_missing_counts_absent_sources df fs images_dir output_dir val_split iou_thr
    ratio seed :
  let r := run df fs images_dir output_dir val_split iou_thr ratio seed in
  enumerates set_order ->
  plain_ids df = true ->
  (forall img, sources_outside images_dir output_dir img) ->
  missing r = (count_absent fs images_dir (elements (train_images r))
               + count_absent fs images_dir (elements (val_images r)))%nat.
Proof. intros r Horder _. apply run_missing, Horder. Qed.



End RunFiles.

Lemma X19_existing_files_kept_witness :
  let r := demo_convert order_a demo_df demo_fs "in" "out" (15#100) (1#2) 1 42 in
  plain_ids demo_df = true /\
  demo_fs !! "in/a.jpg"%string = Some "A"%string /\
  files r !! "in/a.jpg"%string = Some "A"%string.
Proof.
  cbv zeta.
  assert (Hp : plain_ids demo_df = true) by reflexivity.
  assert (H : demo_fs !! "in/a.jpg"%string = Some "A"%string) by (vm_compute; reflexivity).
  split; [exact Hp|]. split; [exact H|].
  apply (X19_existing_files_kept demo_seed demo_randbelow order_a demo_resolve
           demo_df demo_fs "in" "out" (15#100) (1#2) 1 42 "in/a.jpg" "A" Hp H).
  - intros name img E. rewrite label_path_under in E. discriminate E.
  - intros E. discriminate E.
Defined.

Lemma demo_f1_train :
  "f1"%string ∈ train_images
    (demo_convert order_a demo_df demo_fs "in" "out" (15#100) (1#2) 1 42).
Proof. apply elem_of_elements. vm_compute. left. Qed.

Lemma X20_label_file_content_witness :
  let r := demo_convert order_a demo_df demo_fs "in" "out" (15#100) (1#2) 1 42 in
  enumerates order_a /\ plain_ids demo_df = true /\
  source_absent demo_fs "in" "f1" = false /\
  files r !! label_path "out" "train" "f1"
  = Some match alist_lookup "f1"%string (yolo_labels r) with
         | Some lines => label_text lines
         | None => default ""%string (demo_fs !! label_path "out" "train" "f1")
         end.
Proof.
  cbv zeta.
  assert (Hp : plain_ids demo_df = true) by reflexivity.
  assert (Hs : source_absent demo_fs "in" "f1" = false) by (vm_compute; reflexivity).
  split; [exact order_a_enumerates|]. split; [exact Hp|]. split; [exact Hs|].
  apply (X20_label_file_content demo_seed demo_randbelow order_a demo_resolve
           demo_df demo_fs "in" "out" (15#100) (1#2) 1 42 "train"
           (train_images (demo_convert order_a demo_df demo_fs "in" "out"
                            (15#100) (1#2) 1 42))
           "f1" order_a_enumerates Hp).
  - left.
  - exact demo_f1_train.
  - exact Hs.
Defined.

Lemma X21_image_file_content_witness :
  let r := demo_convert order_a demo_df demo_fs "in" "out" (15#100) (1#2) 1 42 in
  enumerates order_a /\ plain_ids demo_df = true /\
  sources_outside "in" "out" "f1" /\
  source_absent demo_fs "in" "f1" = false /\
  files r !! image_path "out" "train" "f1"
  = Some (default (source_bytes demo_fs "in" "f1")
                  (demo_fs !! image_path "out" "train" "f1")).
Proof.
  cbv zeta.
  assert (Hp : plain_ids demo_df = true) by reflexivity.
  assert (Ho : sources_outside "in" "out" "f1") by (split; reflexivity).
  assert (Hs : source_absent demo_fs "in" "f1" = false) by (vm_compute; reflexivity).
  split; [exact order_a_enumerates|]. split; [exact Hp|]. split; [exact Ho|].
  split; [exact Hs|].
  apply (X21_image_file_content demo_seed demo_randbelow order_a demo_resolve
           demo_df demo_fs "in" "out" (15#100) (1#2) 1 42 "train"
           (train_images (demo_convert order_a demo_df demo_fs "in" "out"
                            (15#100) (1#2) 1 42))
           "f1" order_a_enumerates Hp Ho).
  - left.
  - exact demo_f1_train.
  - exact Hs.
Defined.

Lemma demo_sources_outside (img : string) : sources_outside "in" "out" img.
Proof. split; reflexivity. Qed.

Lemma X22_missing_counts_absent_sources_witness :
  let r := demo_convert order_a demo_df demo_fs_missing "in" "out" (15#100) (1#2) 1 42 in
  enumerates order_a /\ plain_ids demo_df = true /\
  (forall img, sources_outside "in" "out" img) /\
  missing r = (count_absent demo_fs_missing "in" (elements (train_images r))
               + count_absent demo_fs_missing "in" (elements (val_images r)))%nat.
Proof.
  cbv zeta.
  assert (Hp : plain_ids demo_df = true) by reflexivity.
  split; [exact order_a_enumerates|]. split; [exact Hp|].
  split; [exact demo_sources_outside|].
  apply (X22_missing_counts_absent_sources demo_seed demo_randbelow order_a demo_resolve
           demo_df demo_fs_missing "in" "out" (15#100) (1#2) 1 42
           order_a_enumerates Hp demo_sources_outside).
Defined.


(** ** The printed statistics *)

Lemma list_sum_zero {A} (l : list A) : list_sum (map (fun _ => 0%nat) l) = 0%nat.
Proof. induction l as [|x l IH]; [reflexivity | exact IH]. Qed.

Lemma list_sum_add {A} (f g : A -> nat) (l : list A) :
  list_sum (map (fun x => (f x + g x)%nat) l)
  = (list_sum (map f l) + list_sum (map g l))%nat.
Proof. induction l as [|x l IH]; simpl; lia. Qed.

(** Among the ids [0 .. n-1] a class is met once, or never. *)
Lemma indicator_sum (z : Z) (n : nat) :
  list_sum (map (fun i => if (z =? Z.of_nat i)%Z then 1%nat else 0%nat) (seq 0 n))
  = if ((0 <=? z) && (z <? Z.of_nat n))%Z then 1%nat else 0%nat.
Proof.
  induction n as [|n IH].
  - simpl. change (Z.of_nat 0) with 0%Z.
    destruct (Z.leb_spec 0 z) as [E1|E1]; destruct (Z.ltb_spec z 0) as [E2|E2];
      cbn [andb]; try reflexivity; lia.
  - rewrite seq_S, List.map_app, list_sum_app, IH. simpl map. simpl list_sum.
    destruct (Z.eqb_spec z (Z.of_nat n)) as [E|E];
    destruct (Z.leb_spec 0 z) as [E1|E1];
    destruct (Z.ltb_spec z (Z.of_nat n)) as [E2|E2];
    destruct (Z.ltb_spec z (Z.of_nat (S n))) as [E3|E3];
    cbn [andb Nat.add]; try reflexivity; lia.
Qed.

Lemma count_label_sum (l : list Fused) (n : nat) :
  list_sum (map (fun i => count_label (Z.of_nat i) l) (seq 0 n))
  = length (List.filter (fun f => ((0 <=? snd f) && (snd f <? Z.of_nat n))%Z) l).
Proof.
  induction l as [|f l IH].
  - unfold count_label. cbn [List.filter length]. apply list_sum_zero.
  - transitivity
      (list_sum (map (fun i => ((if (snd f =? Z.of_nat i)%Z then 1 else 0)
                                + count_label (Z.of_nat i) l)%nat) (seq 0 n))).
    + f_equal. apply map_ext. intros i. unfold count_label. cbn [List.filter].
      destruct (snd f =? Z.of_nat i)%Z; reflexivity.
    + rewrite list_sum_add, IH, indicator_sum. cbn [List.filter].
      destruct ((0 <=? snd f) && (snd f <? Z.of_nat n))%Z; reflexivity.
Qed.

Lemma fused_label_sources (iou_thr : Q) (df : list Row) :
  Forall (fun entry =>
    Forall (fun e =>
              snd e <> 14%Z /\
              exists r, r ∈ df /\ image_id r = fst entry /\
                        class_id r = snd e /\ has_bbox r = true)
           (snd entry))
    (fused_labels iou_thr (List.filter has_bbox (List.filter is_finding_row df))).
Proof.
  apply Forall_forall. intros [img_id fused] Hin.
  apply elem_of_fused_labels in Hin. destruct Hin as (rows & Hrows & Hfus).
  apply group_by_member in Hrows. destruct Hrows as (_ & _ & Hrows).
  apply image_fusion_entries in Hfus. simpl.
  eapply Forall_impl; [exact Hfus|]. simpl.
  intros e (_ & _ & _ & _ & r & Hr & Hcls).
  rewrite Forall_forall in Hrows. destruct (Hrows r Hr) as [Hrdf Himg].
  apply list_elem_of_In, filter_In in Hrdf. destruct Hrdf as [Hrdf Hbb].
  apply filter_In in Hrdf. destruct Hrdf as [Hrdf Hfind].
  unfold is_finding_row in Hfind. apply negb_true_iff, Z.eqb_neq in Hfind.
  split; [congruence|]. exists r.
  split; [apply list_elem_of_In, Hrdf|]. auto.
Qed.

Lemma length_concat_lines (l : list (string * list Fused)) :
  length (concat (map snd (map (fun entry => (fst entry, map yolo_line (snd entry))) l)))
  = length (concat (map snd l)).
Proof.
  induction l as [|[img fs] l IH]; [reflexivity|].
  cbn [map concat fst snd]. rewrite !length_app, IH, length_map. reflexivity.
Qed.

Section RunStats.
Context {Rng : Type}.
Variable rng_seed : Z -> Rng.
Variable randbelow : Rng -> nat -> nat * Rng.
Variable set_order : gset string -> list string.
Variable resolve_posix : string -> string.

Local Abbreviation run := (convert_dataset rng_seed randbelow set_order resolve_posix).

Lemma run_stats_total df fs images_dir output_dir val_split iou_thr ratio seed :
  let r := run df fs images_dir output_dir val_split iou_thr ratio seed in
  list_sum (class_stats r)
  = length (List.filter (fun f => reported_class (snd f))
              (concat (map snd
                 (fused_labels iou_thr
                    (List.filter has_bbox (List.filter is_finding_row df)))))).
Proof.
  cbv zeta. rewrite run_class_stats.
  rewrite (map_ext _ (fun i => count_label (Z.of_nat i)
             (concat (map snd (fused_labels iou_thr
                (List.filter has_bbox (List.filter is_finding_row df)))))))
    by (intros i; apply class_counts_of_fused).
  apply count_label_sum.
Qed.

(** X24. The printed per-class counts add up to the number of consensus
    boxes whose class id lies in [0 .. NUM_CLASSES-1].  Boxes of any other
    class id (a row with an id above 14, or a negative one, passes the
    filter of step 2) get their label lines but are left out of the
    statistics. *)
Theorem X24_statistics_total df fs images_dir output_dir val_split iou_thr ratio seed :
  let r := run df fs images_dir output_dir val_split iou_thr ratio seed in
  list_sum (class_stats r)
  = length (List.filter (fun f => reported_class (snd f))
              (concat (map snd
                 (fused_labels iou_thr
                    (List.filter has_bbox (List.filter is_finding_row df)))))).
Proof. apply run_stats_total. Qed.

(** X25. When every row of the table carries a class id from 0 to 14, the
    printed per-class counts add up to the total number of label lines
    (the "total merged bounding boxes" of line 281). *)
Theorem X25_statistics_cover_all_lines df fs images_dir output_dir val_split iou_thr
    ratio seed :
  let r := convert_dataset rng_seed randbelow set_order resolve_posix
             df fs images_dir output_dir val_split iou_thr ratio seed in
  Forall (fun row => (0 <= class_id row <= 14)%Z) df ->
  list_sum (class_stats r) = length (concat (map snd (yolo_labels r))).
Proof.
  cbv zeta. intros Hcls. rewrite run_stats_total, run_yolo_labels.
  rewrite length_concat_lines. f_equal. apply filter_all.
  intros f Hf. apply list_elem_of_In, in_concat in Hf.
  destruct Hf as (fused & Hfused & Hf). apply in_map_iff in Hfused.
  destruct Hfused as ([img fused'] & <- & Hentry). cbn [snd] in Hf.
  pose proof (fused_label_sources iou_thr df) as Hsrc.
  rewrite Forall_forall in Hsrc. specialize (Hsrc _ (proj2 (list_elem_of_In _ _) Hentry)).
  cbn [snd fst] in Hsrc. rewrite Forall_forall in Hsrc.
  destruct (Hsrc f (proj2 (list_elem_of_In _ _) Hf)) as (H14 & row & Hrow & _ & Hc & _).
  rewrite Forall_forall in Hcls. specialize (Hcls row Hrow).
  unfold reported_class. rewrite <- Hc.
  apply andb_true_intro. split; [apply Z.leb_le; lia|].
  apply Z.ltb_lt. change (Z.of_nat NUM_CLASSES) with 14%Z. lia.
Qed.

End RunStats.

Lemma X25_statistics_cover_all_lines_witness :
  let r := demo_convert order_a demo_df demo_fs "in" "out" (15#100) (1#2) 1 42 in
  Forall (fun row => (0 <= class_id row <= 14)%Z) demo_df /\
  list_sum (class_stats r) = length (concat (map snd (yolo_labels r))).
Proof.
  cbv zeta.
  assert (H : Forall (fun row => (0 <= class_id row <= 14)%Z) demo_df).
  { unfold demo_df. repeat constructor; cbn; lia. }
  split; [exact H|].
  apply (X25_statistics_cover_all_lines demo_seed demo_randbelow order_a demo_resolve
           demo_df demo_fs "in" "out" (15#100) (1#2) 1 42 H).
Defined.

(** ** The skip threshold *)

Lemma pool_nil boxes_list scores_list labels_list skip_box_thr :
  Forall (Forall (fun s => s <= skip_box_thr)) scores_list ->
  pool boxes_list scores_list labels_list skip_box_thr = [].
Proof.
  intros Hall. unfold pool.
  assert (H : forall grp, In grp (zip3 boxes_list scores_list labels_list) ->
            List.filter (fun '(b, s, l) => Qlt_bool skip_box_thr s)
              (zip3 (fst (fst grp)) (snd (fst grp)) (snd grp)) = []).
  { intros [[bs ss] ls] Hgrp. cbn [fst snd].
    apply list_elem_of_In, elem_of_zip3 in Hgrp.
    rewrite Forall_forall in Hall. specialize (Hall _ Hgrp).
    apply filter_none. intros [[b s] l] Hin.
    apply elem_of_zip3 in Hin. rewrite Forall_forall in Hall. specialize (Hall _ Hin).
    destruct (Qlt_bool skip_box_thr s) eqn:E; [|reflexivity].
    apply Qlt_bool_iff in E. lra. }
  induction (zip3 boxes_list scores_list labels_list) as [|[[bs ss] ls] l IH];
    [reflexivity|].
  pose proof (H (bs, ss, ls) (or_introl eq_refl)) as H0. cbn [fst snd] in H0.
  cbn [map concat]. cbv beta iota. rewrite H0.
  apply IH. intros grp Hgrp. apply H. now right.
Qed.

Lemma fusion_below_threshold boxes_list scores_list labels_list iou_thr skip_box_thr :
  Forall (Forall (fun s => s <= skip_box_thr)) scores_list ->
  weighted_boxes_fusion boxes_list scores_list labels_list iou_thr skip_box_thr = [].
Proof.
  intros Hall. unfold weighted_boxes_fusion.
  destruct (Nat.eqb (length boxes_list) 0); [reflexivity|].
  rewrite (pool_nil _ _ _ _ Hall). reflexivity.
Qed.

(** X26. The skip threshold is exclusive: when no score exceeds it (a
    score equal to the threshold included), the fusion returns no box,
    whatever the boxes and labels are. *)
Theorem X26_nothing_above_skip_threshold boxes_list scores_list labels_list
    iou_thr skip_box_thr :
  Forall (Forall (fun s => s <= skip_box_thr)) scores_list ->
  weighted_boxes_fusion boxes_list scores_list labels_list iou_thr skip_box_thr = [].
Proof. apply fusion_below_threshold. Qed.

Lemma X26_nothing_above_skip_threshold_witness :
  Forall (Forall (fun s => s <= 1)) chain_scores /\
  weighted_boxes_fusion chain_boxes chain_scores chain_labels (1#2) 1 = [].
Proof.
  assert (H : Forall (Forall (fun s => s <= 1)) chain_scores).
  { unfold chain_scores. repeat constructor; apply Qle_refl. }
  split; [exact H|].
  apply (X26_nothing_above_skip_threshold chain_boxes chain_scores chain_labels (1#2) 1 H).
Defined.

(** ** IoU under a change of coordinates *)










(** ** Normalising and clamping one row *)









(** ** Which images obtain label lines *)

Lemma zip3_entries (es : list (Box * Q * Z)) :
  zip3 (map (fun e => fst (fst e)) es) (map (fun e => snd (fst e)) es) (map snd es) = es.
Proof.
  unfold zip3. induction es as [|[[b s] l] es IH]; [reflexivity|].
  cbn [map fst snd]. cbn [zip zip_with]. f_equal. exact IH.
Qed.

Lemma zip3_cons {A B C} (x : A) (y : B) (z : C) xs ys zs :
  zip3 (x :: xs) (y :: ys) (z :: zs) = (x, y, z) :: zip3 xs ys zs.
Proof. reflexivity. Qed.

(** When every score exceeds the threshold, the pool is the boxes of all
    models, one model after the other. *)
Lemma pool_of_entries (per_rad : list (list (Box * Q * Z))) (skip_box_thr : Q) :
  Forall (Forall (fun e => skip_box_thr < snd (fst e))) per_rad ->
  pool (map (map (fun e => fst (fst e))) per_rad)
       (map (map (fun e => snd (fst e))) per_rad)
       (map (map snd) per_rad) skip_box_thr
  = concat per_rad.
Proof.
  unfold pool. induction 1 as [|es per_rad Hes _ IH]; [reflexivity|].
  cbn [map]. rewrite zip3_cons. cbn [map concat]. cbv beta iota.
  rewrite zip3_entries. f_equal; [|exact IH].
  apply filter_all. intros [[b s] l] Hin. rewrite Forall_forall in Hes.
  apply Qlt_bool_iff. exact (Hes _ Hin).
Qed.

Lemma select_label_member label (all : list (Box * Q * Z)) b s :
  (b, s, label) ∈ all -> (b, s) ∈ select_label label all.
Proof.
  intros Hin. unfold select_label. apply list_elem_of_In, in_map_iff.
  exists (b, s, label). split; [reflexivity|].
  apply filter_In. split; [apply list_elem_of_In, Hin | apply Z.eqb_refl].
Qed.

(** A pooled box is enough for the fusion to return a box. *)
Lemma fusion_nonempty boxes_list scores_list labels_list iou_thr skip_box_thr b s l :
  (b, s, l) ∈ pool boxes_list scores_list labels_list skip_box_thr ->
  weighted_boxes_fusion boxes_list scores_list labels_list iou_thr skip_box_thr <> [].
Proof.
  intros Hin Hnil.
  pose proof (count_label_fusion boxes_list scores_list labels_list iou_thr
                skip_box_thr l) as Hc.
  rewrite Hnil in Hc. unfold label_clusters in Hc.
  rewrite clusters_of_seed_anchored in Hc.
  destruct (seed_anchored_length iou_thr
              (select_label l (pool boxes_list scores_list labels_list skip_box_thr)))
    as [_ Hge].
  apply select_label_member in Hin.
  assert (Hne : select_label l (pool boxes_list scores_list labels_list skip_box_thr) <> []).
  { intros E. rewrite E in Hin. inversion Hin. }
  specialize (Hge Hne). unfold count_label in Hc. cbn in Hc. lia.
Qed.

(** A box the fusion returns has a pooled box behind it. *)
Lemma fusion_member boxes_list scores_list labels_list iou_thr skip_box_thr e :
  e ∈ weighted_boxes_fusion boxes_list scores_list labels_list iou_thr skip_box_thr ->
  exists b s, (b, s, snd e) ∈ pool boxes_list scores_list labels_list skip_box_thr.
Proof.
  intros He. apply elem_of_fusion in He. destruct He as (c & Hc & _).
  unfold label_clusters in Hc. destruct (cluster_members _ _ _ Hc) as [Hne Hm].
  destruct c as [|[b s] c]; [congruence|].
  apply Forall_cons in Hm. destruct Hm as [Hm _].
  exists b, s. apply elem_of_select_label, Hm.
Qed.

(** The entries of the radiologists of an image are the entries of its
    rows. *)
Lemma fusion_input_rows disp_w disp_h rows :
  exists per_rad : list (list (Box * Q * Z)),
    fusion_input disp_w disp_h rows =
      (map (map (fun e => fst (fst e))) per_rad,
       map (map (fun e => snd (fst e))) per_rad,
       map (map snd) per_rad) /\
    Forall (Forall (fun e => 0 < snd (fst e))) per_rad /\
    forall e, e ∈ concat per_rad <->
              exists r, r ∈ rows /\ rad_entry disp_w disp_h r = Some e.
Proof.
  unfold fusion_input. eexists. split; [reflexivity|]. split.
  - apply Forall_forall. intros es Hes.
    apply list_elem_of_In, filter_In in Hes. destruct Hes as [Hes _].
    apply in_map_iff in Hes. destruct Hes as ([rad rad_rows] & <- & _).
    apply Forall_forall. intros [[b s] l] He.
    unfold rad_entries in He. apply list_elem_of_omap in He.
    destruct He as (r & _ & Hsome).
    destruct (rad_entry_good _ _ _ _ _ _ Hsome) as (_ & _ & -> & _). reflexivity.
  - intros e. rewrite list_elem_of_In, in_concat. split.
    + intros (es & Hes & He). apply filter_In in Hes. destruct Hes as [Hes _].
      apply in_map_iff in Hes. destruct Hes as ([rad rad_rows] & <- & Hgrp).
      apply list_elem_of_In, group_by_member in Hgrp. destruct Hgrp as (_ & _ & Hrows).
      apply list_elem_of_In in He. unfold rad_entries in He.
      apply list_elem_of_omap in He. destruct He as (r & Hr & Hsome).
      exists r. rewrite Forall_forall in Hrows. split; [apply Hrows, Hr | exact Hsome].
    + intros (r & Hr & Hsome).
      exists (rad_entries disp_w disp_h (rows_with rad_id (rad_id r) rows)).
      assert (He : e ∈ rad_entries disp_w disp_h (rows_with rad_id (rad_id r) rows)).
      { unfold rad_entries. apply list_elem_of_omap. exists r. split; [|exact Hsome].
        unfold rows_with. apply list_elem_of_In, filter_In.
        split; [apply list_elem_of_In, Hr | apply bool_decide_eq_true_2; reflexivity]. }
      split; [|apply list_elem_of_In, He].
      apply filter_In. split.
      * apply in_map_iff. exists (rad_id r, rows_with rad_id (rad_id r) rows).
        split; [reflexivity|]. rewrite group_by_spec. apply in_map_iff.
        exists (rad_id r). split; [reflexivity|].
        apply list_elem_of_In, elem_of_pd_unique, list_elem_of_In, in_map.
        apply list_elem_of_In, Hr.
      * destruct (rad_entries disp_w disp_h (rows_with rad_id (rad_id r) rows));
          [inversion He | reflexivity].
Qed.

Lemma image_fusion_nonempty iou_thr disp rows :
  (exists f fs, image_fusion iou_thr disp rows = Some (f :: fs)) <->
  exists r, r ∈ rows /\ is_Some (rad_entry (fst disp) (snd disp) r).
Proof.
  unfold image_fusion.
  destruct (fusion_input_rows (fst disp) (snd disp) rows) as (per_rad & -> & Hpos & Hmem).
  pose proof (pool_of_entries per_rad 0 Hpos) as Hpool.
  split.
  - intros (f & fs & H). destruct (Nat.eqb _ 0); [discriminate|].
    injection H as H.
    assert (Hf : f ∈ weighted_boxes_fusion
                       (map (map (fun e => fst (fst e))) per_rad)
                       (map (map (fun e => snd (fst e))) per_rad)
                       (map (map snd) per_rad) iou_thr 0) by (rewrite H; left).
    apply fusion_member in Hf. destruct Hf as (b & s & Hin).
    rewrite Hpool in Hin. apply Hmem in Hin. destruct Hin as (r & Hr & Hsome).
    exists r. split; [exact Hr | rewrite Hsome; eauto].
  - intros (r & Hr & [[[b s] l] Hsome]).
    assert (Hin : (b, s, l) ∈ concat per_rad) by (apply Hmem; eauto).
    destruct per_rad as [|es per_rad]; [inversion Hin|].
    cbn [map length Nat.eqb].
    rewrite <- Hpool in Hin.
    pose proof (fusion_nonempty _ _ _ iou_thr _ _ _ _ Hin) as Hne.
    cbn [map] in Hne.
    destruct (weighted_boxes_fusion _ _ _ iou_thr 0) as [|f fs]; [congruence|].
    eauto.
Qed.

Lemma fused_labels_key iou_thr finding_df img :
  img ∈ map fst (fused_labels iou_thr finding_df) <->
  exists r, r ∈ finding_df /\ image_id r = img /\
            is_Some (rad_entry
                       (fst (default (0, 0) (display_sizes finding_df !! img)))
                       (snd (default (0, 0) (display_sizes finding_df !! img))) r).
Proof.
  unfold fused_labels. split.
  - intros Hin. apply list_elem_of_fmap in Hin. destruct Hin as ([k fused] & -> & Hin).
    apply list_elem_of_omap in Hin. destruct Hin as ([img rows] & Hgrp & Hsome).
    destruct (image_fusion iou_thr _ rows) as [[|f fs]|] eqn:E; try discriminate.
    injection Hsome as <- <-. cbn [fst].
    destruct (proj1 (image_fusion_nonempty iou_thr
                       (default (0, 0) (display_sizes finding_df !! img)) rows))
      as (r & Hr & Hent); [eauto|].
    apply group_by_member in Hgrp. destruct Hgrp as (_ & _ & Hrows).
    rewrite Forall_forall in Hrows. destruct (Hrows r Hr) as [Hrdf Himg].
    exists r. auto.
  - intros (r & Hr & Himg & Hent).
    set (rows := rows_with image_id img finding_df).
    assert (Hrow : r ∈ rows).
    { unfold rows, rows_with. apply list_elem_of_In, filter_In.
      split; [apply list_elem_of_In, Hr | apply bool_decide_eq_true_2, Himg]. }
    destruct (proj2 (image_fusion_nonempty iou_thr
                       (default (0, 0) (display_sizes finding_df !! img)) rows))
      as (f & fs & Hfus); [eauto|].
    apply list_elem_of_fmap. exists (img, f :: fs). split; [reflexivity|].
    apply list_elem_of_omap. exists (img, rows). split.
    + rewrite group_by_spec. apply list_elem_of_fmap. exists img.
      split; [reflexivity|]. apply elem_of_pd_unique.
      rewrite <- Himg. apply list_elem_of_In, in_map, list_elem_of_In, Hr.
    + cbv beta iota. rewrite Hfus. reflexivity.
Qed.

(** X30. For a table whose rows have a display size other than zero:
    an image obtains label lines exactly when one of its rows of a
    finding class with a bounding box still has a box after normalising
    with the display size of the image and clamping; an image all of
    whose boxes vanish there has no entry, and so takes no part in the
    split. *)
Theorem X30_images_with_labels (iou_thr : Q) (df : list Row) (img : string) :
  Forall sized df ->
  let finding_df := List.filter has_bbox (List.filter is_finding_row df) in
  img ∈ map fst (yolo_labels_of iou_thr finding_df) <->
  exists r, r ∈ finding_df /\ image_id r = img /\
            is_Some (rad_entry
                       (fst (default (0, 0) (display_sizes finding_df !! img)))
                       (snd (default (0, 0) (display_sizes finding_df !! img))) r).
Proof.
  intros _. cbv zeta.
  rewrite <- fused_labels_key. unfold yolo_labels_of.
  rewrite map_map.
  rewrite (map_ext _ fst); [reflexivity|]. intros [k fs]. reflexivity.
Qed.

Lemma X30_images_with_labels_witness :
  Forall sized demo_df /\
  "f1"%string ∈ map fst (yolo_labels_of (1#2)
                           (List.filter has_bbox (List.filter is_finding_row demo_df))).
Proof.
  assert (H : Forall sized demo_df).
  { unfold demo_df. repeat constructor; intros E; vm_compute in E; discriminate E. }
  split; [exact H|].
  apply (X30_images_with_labels (1#2) demo_df "f1" H).
  eexists. split; [left|]. split; [reflexivity|]. vm_compute. eauto.
Defined.

Lemma X11_fusion_input_well_formed_witness :
  let rows := [finding_row "f" "R1" 3 100 10 200 20] in
  Forall (fun r => has_bbox r = true) rows /\
  Forall (Forall (fun s => s = 1)) (snd (fst (fusion_input 1024 1024 rows))).
Proof.
  cbv zeta.
  assert (H : Forall (fun r => has_bbox r = true) [finding_row "f" "R1" 3 100 10 200 20])
    by (repeat constructor).
  split; [exact H|].
  destruct (X11_fusion_input_well_formed 1024 1024
              [finding_row "f" "R1" 3 100 10 200 20] H) as (_ & _ & _ & Hs & _).
  exact Hs.
Defined.
